(** * LaundryQueue: the TimeSlot and Schedule classes of [src/Machine.ts]

    A shallow embedding of the scheduling core (classes [TimeSlot] and
    [Schedule]) and the properties of its admission, removal and query
    operations.

    Modelling conventions.
    - A JavaScript [number] is either [NaN] or an integer: the only numbers
      the code handles are time values of [Date] objects (integers of
      magnitude at most 8.64e15, or [NaN] for an invalid date) and the
      constant [1000 * 60 * 60 * 24].  The one subtraction of the code,
      [end.getTime() - start.getTime()], is only compared with that
      constant; rounding to a double is monotone and exact below 2^53, so
      the comparison agrees with the one on exact integers.
    - A [Date] is its time value; the code never compares two [Date]
      objects by identity.
    - A [TimeSlot] value is a reference to an object: the record carries the
      identity of the object ([ref]) next to its two fields, and [===]
      compares identities.
    - The ambient clock ([new Date()]) is a parameter of each operation.
    - The state is the [timeSlots] array of one [Schedule] together with
      the object allocator; operations live in a state-and-exception
      monad. *)

From Stdlib Require Import String ZArith List Bool Lia Sorted.
Import ListNotations.
Open Scope string_scope.
Open Scope list_scope.
Open Scope Z_scope.

(** ** JavaScript numbers *)

Inductive number : Type :=
| NaN : number
| Num : Z -> number.

Definition isNaN (x : number) : bool :=
  match x with NaN => true | Num _ => false end.

(** Relational operators: every comparison with [NaN] is [false]. *)
Definition js_lt (x y : number) : bool :=
  match x, y with Num a, Num b => a <? b | _, _ => false end.

Definition js_gt (x y : number) : bool :=
  match x, y with Num a, Num b => a >? b | _, _ => false end.

Definition js_le (x y : number) : bool :=
  match x, y with Num a, Num b => a <=? b | _, _ => false end.

Definition js_ge (x y : number) : bool :=
  match x, y with Num a, Num b => a >=? b | _, _ => false end.

(** [x === y] and [x !== y] on numbers. *)
Definition js_seq (x y : number) : bool :=
  match x, y with Num a, Num b => a =? b | _, _ => false end.

Definition js_sneq (x y : number) : bool := negb (js_seq x y).

Definition js_sub (x y : number) : number :=
  match x, y with Num a, Num b => Num (a - b) | _, _ => NaN end.

(** ** Date *)

Record Date : Type := mkDate { getTime : number }.

(** [new Date()] evaluated when the clock shows [now]. *)
Definition Date_now (now : Z) : Date := mkDate (Num now).

(** [a > b] on two [Date] objects converts both with [valueOf]. *)
Definition Date_gt (a b : Date) : bool := js_gt (getTime a) (getTime b).

(** ** Errors, and the state-and-exception monad *)

Record Error : Type := mkError { message : string }.

(** A [TimeSlot] object: [ref] is the identity of the object, [start] and
    [end_] are its two fields (the field is called [end] in the source). *)
Record TimeSlot : Type := mkTimeSlot {
  ref : nat;
  start : Date;
  end_ : Date
}.

(** [timeSlots] is the array of the schedule; [allocated] counts the
    [TimeSlot] objects created so far, the next object gets it as identity. *)
Record Store : Type := mkStore {
  timeSlots : list TimeSlot;
  allocated : nat
}.

Inductive Outcome (A : Type) : Type :=
| Normal : A -> Outcome A
| Thrown : Error -> Outcome A.
Arguments Normal {A} _.
Arguments Thrown {A} _.

Definition M (A : Type) : Type := Store -> Outcome A * Store.

Definition ret {A} (a : A) : M A := fun st => (Normal a, st).

Definition bind {A B} (m : M A) (f : A -> M B) : M B :=
  fun st =>
    match m st with
    | (Normal a, st') => f a st'
    | (Thrown e, st') => (Thrown e, st')
    end.

Definition throw {A} (e : Error) : M A := fun st => (Thrown e, st).

Definition read_timeSlots : M (list TimeSlot) :=
  fun st => (Normal (timeSlots st), st).

Definition write_timeSlots (l : list TimeSlot) : M unit :=
  fun st => (Normal tt, mkStore l (allocated st)).

(** [new] creates the object before the constructor body runs. *)
Definition allocate : M nat :=
  fun st => (Normal (allocated st), mkStore (timeSlots st) (S (allocated st))).

Notation "x <- m ;; k" := (bind m (fun x => k))
  (at level 61, m at next level, right associativity).
Notation "m ;;; k" := (bind m (fun _ => k))
  (at level 61, right associativity).

(** ** Arrays *)

Section Arrays.
Context {A : Type}.

(** [l.splice(start, deleteCount, ...items)], the array after the call. *)
Definition splice (start deleteCount : nat) (items l : list A) : list A :=
  firstn start l ++ items ++ skipn (start + deleteCount) l.

(** [l.push(x)], the array after the call. *)
Definition push (l : list A) (x : A) : list A := l ++ [x].

(** [l.indexOf(x)] for the equality test [eqb]: the first index, or -1. *)
Fixpoint indexOf_from (eqb : A -> A -> bool) (l : list A) (x : A) (i : Z) : Z :=
  match l with
  | [] => -1
  | y :: rest => if eqb y x then i else indexOf_from eqb rest x (i + 1)
  end.
End Arrays.

(** ** class TimeSlot *)

(** The constructor.  The object exists ([allocate]) when the checks run. *)
Definition new_TimeSlot (start end_ : Date) : M TimeSlot :=
  this <- allocate ;;
  if isNaN (getTime start) then
    throw (mkError "The start time is not valid.")
  else if isNaN (getTime end_) then
    throw (mkError "The end time is not valid.")
  else if js_ge (getTime start) (getTime end_) then
    throw (mkError "The start time must be before the end time.")
  else if js_gt (js_sub (getTime end_) (getTime start)) (Num (1000 * 60 * 60 * 24)) then
    throw (mkError "The time slot cannot be longer than 24 hours.")
  else
    ret (mkTimeSlot this start end_).

Definition equals (this timeSlot : TimeSlot) : bool :=
  js_seq (getTime (start this)) (getTime (start timeSlot))
  && js_seq (getTime (end_ this)) (getTime (end_ timeSlot)).

Definition notEquals (this timeSlot : TimeSlot) : bool :=
  js_sneq (getTime (start this)) (getTime (start timeSlot))
  || js_sneq (getTime (end_ this)) (getTime (end_ timeSlot)).

Definition lessThan (this timeSlot : TimeSlot) : bool :=
  js_lt (getTime (start this)) (getTime (start timeSlot)).

Definition greaterThan (this timeSlot : TimeSlot) : bool :=
  js_gt (getTime (start this)) (getTime (start timeSlot)).

Definition lessThanOrEqual (this timeSlot : TimeSlot) : bool :=
  js_le (getTime (start this)) (getTime (start timeSlot)).

Definition greaterThanOrEqual (this timeSlot : TimeSlot) : bool :=
  js_ge (getTime (start this)) (getTime (start timeSlot)).

Definition contains (this : TimeSlot) (date : Date) : bool :=
  js_ge (getTime date) (getTime (start this))
  && js_lt (getTime date) (getTime (end_ this)).

Definition overlaps (this timeSlot : TimeSlot) : bool :=
  js_lt (getTime (start this)) (getTime (end_ timeSlot))
  && js_gt (getTime (end_ this)) (getTime (start timeSlot)).

(** [a === b] on two [TimeSlot] references: the same object. *)
Definition same_object (a b : TimeSlot) : bool := Nat.eqb (ref a) (ref b).

(** ** class Schedule *)

(** The constructor: [this.timeSlots = []]. *)
Definition new_Schedule (objects : nat) : Store := mkStore [] objects.

(** The second loop of [addTimeSlot]: the index [i] of the first element
    that [timeSlot] is less than, scanning [rest] = [timeSlots[i..]]. *)
Fixpoint insertion_index (timeSlot : TimeSlot) (rest : list TimeSlot) (i : nat)
  : option nat :=
  match rest with
  | [] => None
  | slot :: rest' =>
      if lessThan timeSlot slot then Some i
      else insertion_index timeSlot rest' (S i)
  end.

Definition addTimeSlot (now : Z) (timeSlot : TimeSlot) : M bool :=
  if js_lt (getTime (end_ timeSlot)) (getTime (Date_now now)) then ret false
  else
    slots <- read_timeSlots ;;
    if existsb (fun slot =>
                  js_lt (getTime (start timeSlot)) (getTime (end_ slot))
                  && js_gt (getTime (end_ timeSlot)) (getTime (start slot)))
               slots
    then ret false
    else
      match insertion_index timeSlot slots 0 with
      | Some i => write_timeSlots (splice i 0 [timeSlot] slots) ;;; ret true
      | None => write_timeSlots (push slots timeSlot) ;;; ret true
      end.

Definition removeTimeSlot (timeSlot : TimeSlot) : M bool :=
  slots <- read_timeSlots ;;
  let index := indexOf_from same_object slots timeSlot 0 in
  if index =? -1 then ret false
  else write_timeSlots (splice (Z.to_nat index) 1 [] slots) ;;; ret true.

Definition isFree (timeSlot : TimeSlot) : M bool :=
  slots <- read_timeSlots ;;
  ret (negb (existsb (fun slot => overlaps slot timeSlot) slots)).

(** [nextBusyTimeSlot] reads the clock anew in every iteration: [clock k]
    is the reading of iteration [k]. *)
Fixpoint nextBusy_scan (clock : nat -> Z) (k : nat) (slots : list TimeSlot)
  : option TimeSlot :=
  match slots with
  | [] => None
  | slot :: rest =>
      if js_gt (getTime (start slot)) (getTime (Date_now (clock k)))
      then Some slot
      else nextBusy_scan clock (S k) rest
  end.

Definition nextBusyTimeSlot (clock : nat -> Z) : M (option TimeSlot) :=
  slots <- read_timeSlots ;;
  ret (nextBusy_scan clock 0 slots).

(** The loop of [nextFreeTimeSlot] from index [i] on; [rest] is
    [slots[i..]].  Reading a field of [slots[i - 1]] when that element is
    missing is a TypeError in JavaScript. *)
Fixpoint nextFree_scan (now : Date) (slots rest : list TimeSlot) (i : nat)
  : M (option TimeSlot) :=
  match rest with
  | [] => ret None
  | timeSlot :: rest' =>
      if Date_gt (start timeSlot) now then
        if Nat.eqb i 0 then
          s <- new_TimeSlot now (start timeSlot) ;; ret (Some s)
        else
          match nth_error slots (i - 1) with
          | Some prev =>
              s <- new_TimeSlot (end_ prev) (start timeSlot) ;; ret (Some s)
          | None =>
              throw (mkError "Cannot read properties of undefined (reading 'end')")
          end
      else nextFree_scan now slots rest' (S i)
  end.

Definition nextFreeTimeSlot (now : Z) : M (option TimeSlot) :=
  let now := Date_now now in
  slots <- read_timeSlots ;;
  nextFree_scan now slots slots 0.

Definition isBusy (now : Z) : M bool :=
  let now := Date_now now in
  slots <- read_timeSlots ;;
  ret (existsb (fun timeSlot => contains timeSlot now) slots).

(** ** class Machine *)

Inductive MachineStatus : Type := BUSY | IDLE.

(** [getStatus()]; the other methods of [Machine] forward to the schedule. *)
Definition getStatus (now : Z) : M MachineStatus :=
  busy <- isBusy now ;;
  ret (if busy then BUSY else IDLE).

(** * Vocabulary of the properties *)

(** The three kinds of construction failure, told apart by the message of
    the [Error] the constructor throws. *)
Definition InvalidTimeError (e : Error) : Prop :=
  message e = "The start time is not valid."
  \/ message e = "The end time is not valid.".

Definition OrderingError (e : Error) : Prop :=
  message e = "The start time must be before the end time.".

Definition DurationError (e : Error) : Prop :=
  message e = "The time slot cannot be longer than 24 hours.".

(** 24 hours in milliseconds. *)
Definition day_ms : Z := 86400000.

(** What the constructor guarantees of every [TimeSlot] it returns. *)
Definition wellFormed (s : TimeSlot) : bool :=
  match getTime (start s), getTime (end_ s) with
  | Num a, Num b => (a <? b) && (b - a <=? day_ms)
  | _, _ => false
  end.

(** The value returned by a computation, and the store it leaves. *)
Definition outcome {A} (m : M A) (st : Store) : Outcome A := fst (m st).
Definition store_after {A} (m : M A) (st : Store) : Store := snd (m st).

(** The overlap test written out in [addTimeSlot]. *)
Definition clashes (timeSlot slot : TimeSlot) : bool :=
  js_lt (getTime (start timeSlot)) (getTime (end_ slot))
  && js_gt (getTime (end_ timeSlot)) (getTime (start slot)).

(** Where an accepted slot goes: [before] are the slots it is not less
    than, and [after] is empty or begins with a slot it is less than. *)
Definition insertion_point (s : TimeSlot) (before after : list TimeSlot) : Prop :=
  Forall (fun e => lessThan s e = false) before
  /\ (after = [] \/ exists y rest, after = y :: rest /\ lessThan s y = true).

(** Ascending by [start], in the sense of [lessThanOrEqual] and of
    [lessThan], between neighbours. *)
Definition ascending (l : list TimeSlot) : Prop :=
  Sorted (fun a b => lessThanOrEqual a b = true) l.

Definition strictly_ascending (l : list TimeSlot) : Prop :=
  Sorted (fun a b => lessThan a b = true) l.

(** [a] has ended when [b] starts. *)
Definition follows (a b : TimeSlot) : Prop :=
  js_le (getTime (end_ a)) (getTime (start b)) = true.

(** The invariant carried through the operations: every stored slot is
    well-formed and has ended when any later one starts. *)
Definition chained (l : list TimeSlot) : Prop :=
  Forall (fun e => wellFormed e = true) l /\ StronglySorted follows l.

(** A call of an operation of [Schedule], with the clock it observes. *)
Inductive Call : Type :=
| Call_addTimeSlot (now : Z) (timeSlot : TimeSlot)
| Call_removeTimeSlot (timeSlot : TimeSlot)
| Call_isFree (timeSlot : TimeSlot)
| Call_nextBusyTimeSlot (clock : nat -> Z)
| Call_nextFreeTimeSlot (now : Z)
| Call_isBusy (now : Z).

(** The store after a call; an exception leaves the store as it was when
    thrown. *)
Definition perform (st : Store) (c : Call) : Store :=
  match c with
  | Call_addTimeSlot now s => store_after (addTimeSlot now s) st
  | Call_removeTimeSlot s => store_after (removeTimeSlot s) st
  | Call_isFree s => store_after (isFree s) st
  | Call_nextBusyTimeSlot clock => store_after (nextBusyTimeSlot clock) st
  | Call_nextFreeTimeSlot now => store_after (nextFreeTimeSlot now) st
  | Call_isBusy now => store_after (isBusy now) st
  end.

Definition run (calls : list Call) (st : Store) : Store :=
  fold_left perform calls st.

(** The slots handed to [addTimeSlot] come from the constructor. *)
Definition call_wellFormed (c : Call) : Prop :=
  match c with
  | Call_addTimeSlot _ s => wellFormed s = true
  | _ => True
  end.

(** Where the synthetic slot of [nextFreeTimeSlot] begins when slot [i] is
    the first to start after [now]: at the end of slot [i - 1], or at the
    current instant when [i] is 0. *)
Definition gap_start (now : Z) (slots : list TimeSlot) (i : nat) : Date :=
  match i with
  | O => Date_now now
  | S p => match nth_error slots p with
           | Some prev => end_ prev
           | None => Date_now now
           end
  end.

(** The scenario of the documentation of [Machine.removeTimeSlot]: a slot is
    created and added, then a second slot is created from the same two
    dates and passed to [removeTimeSlot]. *)
Definition remove_independent_copy (now : Z) (from to : Date)
  : M (bool * bool * bool) :=
  a <- new_TimeSlot from to ;;
  added <- addTimeSlot now a ;;
  b <- new_TimeSlot from to ;;
  removed <- removeTimeSlot b ;;
  ret (added, equals a b, removed).

(** Slots used below, in milliseconds from the epoch: [late] is
    [1h, 2h), [early] is [10min, 50min), [next] is [2h, 3h), which begins
    when [late] ends, and [running] is [0, 20min). *)
Definition slot_late : TimeSlot :=
  mkTimeSlot 0 (mkDate (Num 3600000)) (mkDate (Num 7200000)).
Definition slot_early : TimeSlot :=
  mkTimeSlot 1 (mkDate (Num 600000)) (mkDate (Num 3000000)).
Definition slot_next : TimeSlot :=
  mkTimeSlot 2 (mkDate (Num 7200000)) (mkDate (Num 10800000)).
Definition slot_running : TimeSlot :=
  mkTimeSlot 3 (mkDate (Num 0)) (mkDate (Num 1200000)).

Definition example_calls : list Call :=
  [Call_addTimeSlot 0 slot_late; Call_addTimeSlot 0 slot_early;
   Call_removeTimeSlot slot_late].

(** ** The bot of [src/bot/bot.ts] *)

(** The fields of a message the handler reads: [msg.content] and
    [msg.channel.id]. *)
Record Message : Type := mkMessage {
  content : string;
  channel_id : string
}.

(** A call [bot.createMessage(channel, text)]. *)
Inductive BotAction : Type :=
| createMessage (channel text : string).

(** The handler of the [messageCreate] event: the calls it makes. *)
Definition on_messageCreate (msg : Message) : list BotAction :=
  if String.eqb (content msg) "!ping" then
    [createMessage (channel_id msg) "Pong!"]
  else if String.eqb (content msg) "!pong" then
    [createMessage (channel_id msg) "Ping!"]
  else [].

(** No two stored slots are the same object. *)
Definition distinct_objects (l : list TimeSlot) : Prop := NoDup (map ref l).

(** * Proofs *)

(** ** Numbers *)

Lemma js_lt_Num a b : js_lt (Num a) (Num b) = true <-> a < b.
Proof. simpl. apply Z.ltb_lt. Qed.

Lemma js_gt_Num a b : js_gt (Num a) (Num b) = true <-> b < a.
Proof. simpl. rewrite Z.gtb_ltb. apply Z.ltb_lt. Qed.

Lemma js_le_Num a b : js_le (Num a) (Num b) = true <-> a <= b.
Proof. simpl. apply Z.leb_le. Qed.

Lemma js_ge_Num a b : js_ge (Num a) (Num b) = true <-> b <= a.
Proof. simpl. rewrite Z.geb_leb. apply Z.leb_le. Qed.

Lemma js_lt_Num_false a b : js_lt (Num a) (Num b) = false <-> b <= a.
Proof. simpl. apply Z.ltb_ge. Qed.

Lemma js_gt_Num_false a b : js_gt (Num a) (Num b) = false <-> a <= b.
Proof. simpl. rewrite Z.gtb_ltb. apply Z.ltb_ge. Qed.

Lemma js_ge_Num_false a b : js_ge (Num a) (Num b) = false <-> a < b.
Proof. simpl. rewrite Z.geb_leb. apply Z.leb_gt. Qed.

Lemma wellFormed_inv s :
  wellFormed s = true ->
  exists a b, getTime (start s) = Num a /\ getTime (end_ s) = Num b
              /\ a < b /\ b - a <= day_ms.
Proof.
  unfold wellFormed. intros H.
  destruct (getTime (start s)) as [|a]; [discriminate|].
  destruct (getTime (end_ s)) as [|b]; [discriminate|].
  apply andb_true_iff in H. destruct H as [H1 H2].
  apply Z.ltb_lt in H1. apply Z.leb_le in H2.
  exists a, b. auto.
Qed.

(** ** The constructor of TimeSlot *)

Lemma new_TimeSlot_valid from to st a b :
  getTime from = Num a -> getTime to = Num b ->
  a < b -> b - a <= day_ms ->
  new_TimeSlot from to st
  = (Normal (mkTimeSlot (allocated st) from to),
     mkStore (timeSlots st) (S (allocated st))).
Proof.
  intros Ha Hb Hlt Hd. unfold new_TimeSlot, bind, allocate, day_ms in *.
  rewrite Ha, Hb. cbn [isNaN js_sub].
  assert (G : js_ge (Num a) (Num b) = false) by (apply js_ge_Num_false; lia).
  rewrite G.
  assert (D : js_gt (Num (b - a)) (Num (1000 * 60 * 60 * 24)) = false)
    by (apply js_gt_Num_false; lia).
  rewrite D. reflexivity.
Qed.

Lemma new_TimeSlot_keeps_timeSlots from to st :
  timeSlots (store_after (new_TimeSlot from to) st) = timeSlots st.
Proof.
  unfold store_after, new_TimeSlot, bind, allocate, throw, ret. cbn.
  repeat match goal with |- context [if ?c then _ else _] => destruct c end;
    reflexivity.
Qed.

Lemma new_TimeSlot_returns from to st s :
  outcome (new_TimeSlot from to) st = Normal s ->
  s = mkTimeSlot (allocated st) from to /\ wellFormed s = true.
Proof.
  unfold outcome, new_TimeSlot, bind, allocate, throw, ret, wellFormed. cbn.
  destruct (getTime from) as [|a] eqn:Ha; cbn; [discriminate|].
  destruct (getTime to) as [|b] eqn:Hb; cbn; [discriminate|].
  destruct (a >=? b) eqn:G; cbn; [discriminate|].
  destruct (b - a >? 86400000) eqn:D; cbn; [discriminate|].
  intros E. injection E as <-. cbn. rewrite Ha, Hb. split; [reflexivity|].
  rewrite Z.geb_leb in G. apply Z.leb_gt in G.
  rewrite Z.gtb_ltb in D. apply Z.ltb_ge in D.
  apply andb_true_iff. split; [apply Z.ltb_lt; lia|].
  apply Z.leb_le. unfold day_ms. lia.
Qed.

(** C7: the constructor throws an invalid-time error when either timestamp
    is not a valid instant, an ordering error when [start >= end], a duration
    error when [end - start] exceeds 24 hours, and otherwise (in particular
    at exactly 24 hours) returns a slot with the given endpoints. *)
Theorem new_TimeSlot_spec (from to : Date) (st : Store) :
  (getTime from = NaN \/ getTime to = NaN ->
   exists e, outcome (new_TimeSlot from to) st = Thrown e /\ InvalidTimeError e)
  /\
  (forall a b, getTime from = Num a -> getTime to = Num b ->
     (a >= b ->
      exists e, outcome (new_TimeSlot from to) st = Thrown e /\ OrderingError e)
     /\
     (b - a > day_ms ->
      exists e, outcome (new_TimeSlot from to) st = Thrown e /\ DurationError e)
     /\
     (a < b -> b - a <= day_ms ->
      exists s, outcome (new_TimeSlot from to) st = Normal s
                /\ start s = from /\ end_ s = to)
     /\
     (b - a = day_ms ->
      exists s, outcome (new_TimeSlot from to) st = Normal s
                /\ start s = from /\ end_ s = to)).
Proof.
  split.
  - intros H. unfold outcome, new_TimeSlot, bind, allocate. cbn.
    destruct (getTime from) as [|a] eqn:Ha; cbn.
    + eexists. split; [reflexivity|]. left. reflexivity.
    + destruct H as [H|H]; [discriminate|]. rewrite H. cbn.
      eexists. split; [reflexivity|]. right. reflexivity.
  - intros a b Ha Hb.
    assert (V : a < b -> b - a <= day_ms ->
                exists s, outcome (new_TimeSlot from to) st = Normal s
                          /\ start s = from /\ end_ s = to).
    { intros Hlt Hd. unfold outcome.
      rewrite (new_TimeSlot_valid from to st a b Ha Hb Hlt Hd).
      eexists. cbn. repeat split. }
    repeat split.
    + intros Hge. unfold outcome, new_TimeSlot, bind, allocate. cbn.
      rewrite Ha, Hb. cbn.
      assert (G : (a >=? b) = true) by (rewrite Z.geb_leb; apply Z.leb_le; lia).
      rewrite G. eexists. split; reflexivity.
    + intros Hd. unfold day_ms in Hd.
      unfold outcome, new_TimeSlot, bind, allocate. cbn.
      rewrite Ha, Hb. cbn.
      assert (G : (a >=? b) = false) by (rewrite Z.geb_leb; apply Z.leb_gt; lia).
      rewrite G.
      assert (D : (b - a >? 86400000) = true)
        by (rewrite Z.gtb_ltb; apply Z.ltb_lt; lia).
      rewrite D. eexists. split; reflexivity.
    + exact V.
    + intros E. apply V; unfold day_ms in *; lia.
Qed.

(** The boundary cases of the constructor: an empty interval, exactly 24
    hours, and one millisecond more. *)
Example new_TimeSlot_boundaries :
  outcome (new_TimeSlot (mkDate (Num 5000)) (mkDate (Num 5000))) (new_Schedule 0)
  = Thrown (mkError "The start time must be before the end time.")
  /\ outcome (new_TimeSlot (mkDate (Num 5000)) (mkDate (Num 86405000))) (new_Schedule 0)
     = Normal (mkTimeSlot 0 (mkDate (Num 5000)) (mkDate (Num 86405000)))
  /\ outcome (new_TimeSlot (mkDate (Num 5000)) (mkDate (Num 86405001))) (new_Schedule 0)
     = Thrown (mkError "The time slot cannot be longer than 24 hours.")
  /\ outcome (new_TimeSlot (mkDate NaN) (mkDate (Num 5000))) (new_Schedule 0)
     = Thrown (mkError "The start time is not valid.").
Proof. repeat split. Qed.

(** ** Arrays *)

Lemma indexOf_from_spec {A} (eqb : A -> A -> bool) (x : A) (l : list A) (i : Z) :
  0 <= i ->
  (indexOf_from eqb l x i = -1 /\ Forall (fun y => eqb y x = false) l)
  \/ (exists l1 y l2,
        l = l1 ++ y :: l2
        /\ Forall (fun y => eqb y x = false) l1
        /\ eqb y x = true
        /\ indexOf_from eqb l x i = i + Z.of_nat (length l1)).
Proof.
  revert i. induction l as [|y l IH]; intros i Hi; cbn.
  - left. split; [reflexivity | constructor].
  - destruct (eqb y x) eqn:E.
    + right. exists [], y, l. cbn. repeat split; auto. lia.
    + destruct (IH (i + 1) ltac:(lia)) as [[H1 H2] | (l1 & z & l2 & -> & H2 & H3 & H4)].
      * left. split; [exact H1 | constructor; assumption].
      * right. exists (y :: l1), z, l2. cbn [app length].
        repeat split; auto. rewrite H4. lia.
Qed.

Lemma splice_delete_one {A} (l1 l2 : list A) (y : A) :
  splice (length l1) 1 [] (l1 ++ y :: l2) = l1 ++ l2.
Proof.
  unfold splice. cbn [app].
  rewrite firstn_app, firstn_all, Nat.sub_diag. cbn [firstn].
  rewrite app_nil_r.
  replace (length l1 + 1)%nat with (length l1 + 1 + 0)%nat by lia.
  rewrite <- Nat.add_assoc, skipn_app.
  rewrite skipn_all2 by lia.
  replace (length l1 + (1 + 0) - length l1)%nat with 1%nat by lia.
  reflexivity.
Qed.

Lemma splice_insert_one {A} (l1 l2 : list A) (x : A) :
  splice (length l1) 0 [x] (l1 ++ l2) = l1 ++ x :: l2.
Proof.
  unfold splice. rewrite Nat.add_0_r.
  rewrite firstn_app, firstn_all, Nat.sub_diag. cbn [firstn].
  rewrite app_nil_r, skipn_app, skipn_all, Nat.sub_diag. reflexivity.
Qed.

(** ** removeTimeSlot *)

(** What [removeTimeSlot] does: it removes the first element that is the
    very object passed in, and otherwise changes nothing. *)
Lemma removeTimeSlot_by_identity (s : TimeSlot) (st : Store) :
  (Forall (fun e => same_object e s = false) (timeSlots st)
   /\ removeTimeSlot s st = (Normal false, st))
  \/ (exists l1 y l2,
        timeSlots st = l1 ++ y :: l2
        /\ Forall (fun e => same_object e s = false) l1
        /\ same_object y s = true
        /\ removeTimeSlot s st = (Normal true, mkStore (l1 ++ l2) (allocated st))).
Proof.
  unfold removeTimeSlot, bind, read_timeSlots, write_timeSlots, ret.
  destruct (indexOf_from_spec same_object s (timeSlots st) 0 ltac:(lia))
    as [[H1 H2] | (l1 & y & l2 & E & H2 & H3 & H4)].
  - left. split; [exact H2|]. rewrite H1. reflexivity.
  - right. exists l1, y, l2. repeat split; auto.
    rewrite H4. cbn [Z.add].
    destruct (Z.of_nat (length l1) =? -1) eqn:N; [apply Z.eqb_eq in N; lia|].
    rewrite Nat2Z.id, E, splice_delete_one. reflexivity.
Qed.

(** C1 (the code departs from the claim): a slot built independently from
    the same endpoints is value-equal to the stored one, yet
    [removeTimeSlot] returns [false] and the stored slot stays. *)
Theorem removeTimeSlot_ignores_equal_copy :
  remove_independent_copy 0 (mkDate (Num 1000)) (mkDate (Num 2000)) (new_Schedule 0)
  = (Normal (true, true, false),
     mkStore [mkTimeSlot 0 (mkDate (Num 1000)) (mkDate (Num 2000))] 2).
Proof. reflexivity. Qed.

(** ** addTimeSlot *)

Lemma clashes_overlaps s e : clashes s e = overlaps s e.
Proof. reflexivity. Qed.

Lemma overlaps_sym a b : overlaps a b = overlaps b a.
Proof.
  unfold overlaps.
  destruct (getTime (start a)), (getTime (end_ a)),
           (getTime (start b)), (getTime (end_ b)); cbn;
    rewrite ?andb_false_r; try reflexivity.
  rewrite !Z.gtb_ltb. apply andb_comm.
Qed.

Lemma insertion_index_spec (s : TimeSlot) (rest : list TimeSlot) (i : nat) :
  (insertion_index s rest i = None
   /\ Forall (fun e => lessThan s e = false) rest)
  \/ (exists l1 y l2,
        rest = l1 ++ y :: l2
        /\ Forall (fun e => lessThan s e = false) l1
        /\ lessThan s y = true
        /\ insertion_index s rest i = Some (i + length l1)%nat).
Proof.
  revert i. induction rest as [|y rest IH]; intros i; cbn.
  - left. split; [reflexivity | constructor].
  - destruct (lessThan s y) eqn:E.
    + right. exists [], y, rest. cbn. rewrite Nat.add_0_r. repeat split; auto.
    + destruct (IH (S i)) as [[H1 H2] | (l1 & z & l2 & -> & H2 & H3 & H4)].
      * left. split; [exact H1 | constructor; assumption].
      * right. exists (y :: l1), z, l2. cbn [app length].
        repeat split; auto. rewrite H4. f_equal. lia.
Qed.

Lemma addTimeSlot_stale now s st :
  js_lt (getTime (end_ s)) (Num now) = true ->
  addTimeSlot now s st = (Normal false, st).
Proof. intros H. unfold addTimeSlot. cbn. rewrite H. reflexivity. Qed.

Lemma addTimeSlot_clash now s st :
  existsb (clashes s) (timeSlots st) = true ->
  addTimeSlot now s st = (Normal false, st).
Proof.
  intros H. unfold addTimeSlot, bind, read_timeSlots. cbn.
  destruct (js_lt (getTime (end_ s)) (Num now)); [reflexivity|].
  unfold clashes in H. rewrite H. reflexivity.
Qed.

Lemma addTimeSlot_accept now s st :
  js_lt (getTime (end_ s)) (Num now) = false ->
  existsb (clashes s) (timeSlots st) = false ->
  exists before after,
    timeSlots st = before ++ after
    /\ insertion_point s before after
    /\ addTimeSlot now s st
       = (Normal true, mkStore (before ++ s :: after) (allocated st)).
Proof.
  intros H1 H2. unfold addTimeSlot, bind, read_timeSlots, write_timeSlots, ret.
  cbn. rewrite H1. unfold clashes in H2. rewrite H2.
  destruct (insertion_index_spec s (timeSlots st) 0)
    as [[E F] | (l1 & y & l2 & E & F & L & I)].
  - rewrite E. exists (timeSlots st), []. rewrite app_nil_r.
    repeat split; auto.
  - rewrite I. cbn [Nat.add]. exists l1, (y :: l2).
    rewrite E, splice_insert_one.
    repeat split; auto. right. exists y, l2. auto.
Qed.

(** The three cases together: the result of [addTimeSlot] is decided by the
    staleness test and the overlap scan. *)
Lemma addTimeSlot_true_iff now s st :
  outcome (addTimeSlot now s) st = Normal true
  <-> js_lt (getTime (end_ s)) (Num now) = false
      /\ existsb (clashes s) (timeSlots st) = false.
Proof.
  unfold outcome. split.
  - intros H.
    destruct (js_lt (getTime (end_ s)) (Num now)) eqn:S1.
    + rewrite (addTimeSlot_stale now s st S1) in H. discriminate.
    + destruct (existsb (clashes s) (timeSlots st)) eqn:S2; [|auto].
      rewrite (addTimeSlot_clash now s st S2) in H. discriminate.
  - intros [S1 S2].
    destruct (addTimeSlot_accept now s st S1 S2) as (b & a & _ & _ & E).
    rewrite E. reflexivity.
Qed.

Lemma existsb_false_Forall {A} (p : A -> bool) (l : list A) :
  existsb p l = false <-> Forall (fun x => p x = false) l.
Proof.
  induction l as [|x l IH]; cbn.
  - split; [constructor | reflexivity].
  - rewrite orb_false_iff, IH. split.
    + intros [H1 H2]. constructor; assumption.
    + intros H. inversion H; subst. auto.
Qed.

(** A well-formed slot overlaps every slot with the same endpoints. *)
Lemma equals_clashes s e :
  wellFormed s = true -> equals e s = true -> clashes s e = true.
Proof.
  intros W E. destruct (wellFormed_inv s W) as (a & b & Ha & Hb & Hlt & _).
  unfold equals in E. unfold clashes. rewrite Ha, Hb in *.
  destruct (getTime (start e)) as [|a']; [discriminate|].
  destruct (getTime (end_ e)) as [|b']; [cbn in E; rewrite andb_false_r in E; discriminate|].
  cbn in E. apply andb_true_iff in E. destruct E as [E1 E2].
  apply Z.eqb_eq in E1, E2. subst.
  apply andb_true_iff. split; [apply js_lt_Num | apply js_gt_Num]; lia.
Qed.

Lemma equals_refl s : wellFormed s = true -> equals s s = true.
Proof.
  intros W. destruct (wellFormed_inv s W) as (a & b & Ha & Hb & _).
  unfold equals. rewrite Ha, Hb. cbn. rewrite !Z.eqb_refl. reflexivity.
Qed.

Lemma filter_none {A} (p : A -> bool) (l : list A) :
  Forall (fun x => p x = false) l -> filter p l = [].
Proof.
  induction 1 as [|x l H _ IH]; cbn; [reflexivity|]. rewrite H. exact IH.
Qed.

(** ** Order of the sequence *)

Lemma Sorted_insert_between {A} (R : A -> A -> Prop) (l1 l2 : list A) (x : A) :
  Sorted R (l1 ++ l2) ->
  Forall (fun e => R e x) l1 ->
  HdRel R x l2 ->
  Sorted R (l1 ++ x :: l2).
Proof.
  intros S F H. induction l1 as [|a l1 IH]; cbn in *.
  - constructor; assumption.
  - inversion S as [|? ? S' Hd]; subst. inversion F as [|? ? Ra F']; subst.
    constructor; [apply IH; assumption|].
    destruct l1 as [|c l1]; cbn in *.
    + constructor. exact Ra.
    + inversion Hd; subst. constructor. assumption.
Qed.

Section Accepted_slot.
(** A well-formed slot [s] that clashes with no element of [l]. *)
Variables (s : TimeSlot) (l : list TimeSlot).
Hypothesis s_wf : wellFormed s = true.
Hypothesis l_wf : Forall (fun e => wellFormed e = true) l.
Hypothesis no_clash : Forall (fun e => clashes s e = false) l.

Lemma not_lessThan_before e :
  In e l -> lessThan s e = false ->
  lessThan e s = true
  /\ js_le (getTime (end_ e)) (getTime (start s)) = true.
Proof.
  intros I L.
  destruct (wellFormed_inv s s_wf) as (a & b & Ha & Hb & Hlt & _).
  rewrite Forall_forall in l_wf, no_clash.
  destruct (wellFormed_inv e (l_wf e I)) as (a' & b' & Ha' & Hb' & Hlt' & _).
  specialize (no_clash e I). unfold clashes, lessThan in *.
  rewrite Ha, Hb, Ha', Hb' in *.
  apply js_lt_Num_false in L.
  apply andb_false_iff in no_clash.
  rewrite js_lt_Num_false, js_gt_Num_false in no_clash.
  split; [apply js_lt_Num | apply js_le_Num]; lia.
Qed.

Lemma lessThan_after e :
  In e l ->
  js_lt (getTime (start s)) (getTime (start e)) = true ->
  js_le (getTime (end_ s)) (getTime (start e)) = true.
Proof.
  intros I L.
  destruct (wellFormed_inv s s_wf) as (a & b & Ha & Hb & Hlt & _).
  rewrite Forall_forall in l_wf, no_clash.
  destruct (wellFormed_inv e (l_wf e I)) as (a' & b' & Ha' & Hb' & Hlt' & _).
  specialize (no_clash e I). unfold clashes in *.
  rewrite Ha, Hb, Ha', Hb' in *.
  apply js_lt_Num in L.
  apply andb_false_iff in no_clash.
  rewrite js_lt_Num_false, js_gt_Num_false in no_clash.
  apply js_le_Num. lia.
Qed.
End Accepted_slot.

Lemma lessThan_lessThanOrEqual a b :
  lessThan a b = true -> lessThanOrEqual a b = true.
Proof.
  unfold lessThan, lessThanOrEqual.
  destruct (getTime (start a)), (getTime (start b)); cbn; try discriminate.
  rewrite Z.ltb_lt, Z.leb_le. lia.
Qed.

(** C2: for a well-formed slot [s], [addTimeSlot] returns [false] and
    changes nothing when [s.end] is before the instant of the call or [s]
    overlaps an existing slot; otherwise it returns [true], and [s] then
    occurs exactly once, immediately before the first existing slot with a
    greater start (at the end when there is none), which keeps an ascending
    sequence ascending. *)
Theorem addTimeSlot_spec (now : Z) (s : TimeSlot) (st : Store) :
  wellFormed s = true ->
  (js_lt (getTime (end_ s)) (Num now) = true ->
   addTimeSlot now s st = (Normal false, st))
  /\
  ((exists e, In e (timeSlots st) /\ clashes s e = true) ->
   addTimeSlot now s st = (Normal false, st))
  /\
  (js_lt (getTime (end_ s)) (Num now) = false ->
   (forall e, In e (timeSlots st) -> clashes s e = false) ->
   exists before after,
     timeSlots st = before ++ after
     /\ insertion_point s before after
     /\ addTimeSlot now s st
        = (Normal true, mkStore (before ++ s :: after) (allocated st))
     /\ length (filter (fun e => equals e s) (before ++ s :: after)) = 1%nat
     /\ ~ In s (timeSlots st)
     /\ (Forall (fun e => wellFormed e = true) (timeSlots st) ->
         (strictly_ascending (timeSlots st) ->
          strictly_ascending (before ++ s :: after))
         /\ (ascending (timeSlots st) -> ascending (before ++ s :: after)))).
Proof.
  intros W. split; [apply addTimeSlot_stale|]. split.
  - intros (e & I & C). apply addTimeSlot_clash.
    apply existsb_exists. exists e. auto.
  - intros S1 NC.
    assert (F : Forall (fun e => clashes s e = false) (timeSlots st))
      by (apply Forall_forall; exact NC).
    assert (NE : Forall (fun e => equals e s = false) (timeSlots st)).
    { apply Forall_forall. intros e I.
      destruct (equals e s) eqn:E; [|reflexivity].
      pose proof (NC e I) as X.
      rewrite (equals_clashes s e W E) in X. discriminate X. }
    destruct (addTimeSlot_accept now s st S1 (proj2 (existsb_false_Forall _ _) F))
      as (before & after & E & P & R).
    exists before, after. split; [exact E|]. split; [exact P|].
    split; [exact R|]. rewrite E in NE. apply Forall_app in NE.
    destruct NE as [NE1 NE2]. split; [|split].
    + rewrite filter_app. cbn [filter]. rewrite (equals_refl s W).
      rewrite (filter_none _ _ NE1), (filter_none _ _ NE2). reflexivity.
    + intros I. assert (X := NC s I).
      rewrite (equals_clashes s s W (equals_refl s W)) in X. discriminate.
    + intros WF. destruct P as [PB PA].
      assert (B : forall e, In e before ->
                    lessThan e s = true).
      { intros e I. rewrite Forall_forall in PB.
        apply (not_lessThan_before s (timeSlots st) W WF F).
        - rewrite E. apply in_or_app. auto.
        - apply PB, I. }
      split; intros A; rewrite E in A.
      * apply Sorted_insert_between; [exact A| |].
        -- apply Forall_forall. exact B.
        -- destruct PA as [-> | (y & rest & -> & L)]; constructor. exact L.
      * apply Sorted_insert_between; [exact A| |].
        -- apply Forall_forall. intros e I.
           apply lessThan_lessThanOrEqual, B, I.
        -- destruct PA as [-> | (y & rest & -> & L)]; constructor.
           apply lessThan_lessThanOrEqual, L.
Qed.

(** ** The invariant of the schedule *)

Lemma StronglySorted_insert_between {A} (R : A -> A -> Prop) (l1 l2 : list A) (x : A) :
  StronglySorted R (l1 ++ l2) ->
  Forall (fun e => R e x) l1 ->
  Forall (R x) l2 ->
  StronglySorted R (l1 ++ x :: l2).
Proof.
  intros S F1 F2. induction l1 as [|a l1 IH]; cbn in *.
  - constructor; assumption.
  - inversion S as [|? ? S' Fa]; subst. inversion F1 as [|? ? Ra F1']; subst.
    constructor; [apply IH; assumption|].
    apply Forall_app in Fa. destruct Fa as [Fa1 Fa2].
    apply Forall_app. split; [assumption|]. constructor; assumption.
Qed.

Lemma StronglySorted_remove_between {A} (R : A -> A -> Prop) (l1 l2 : list A) (x : A) :
  StronglySorted R (l1 ++ x :: l2) -> StronglySorted R (l1 ++ l2).
Proof.
  induction l1 as [|a l1 IH]; cbn; intros S.
  - inversion S; assumption.
  - inversion S as [|? ? S' Fa]; subst. constructor; [apply IH; assumption|].
    apply Forall_app in Fa. destruct Fa as [Fa1 Fa2].
    apply Forall_app. split; [assumption|]. inversion Fa2; assumption.
Qed.

Lemma StronglySorted_suffix {A} (R : A -> A -> Prop) (l1 l2 : list A) :
  StronglySorted R (l1 ++ l2) -> StronglySorted R l2.
Proof.
  induction l1 as [|a l1 IH]; cbn; intros S; [exact S|].
  inversion S; subst. apply IH. assumption.
Qed.

Lemma StronglySorted_nth {A} (R : A -> A -> Prop) (l : list A) :
  StronglySorted R l ->
  forall i j a b, (i < j)%nat ->
    nth_error l i = Some a -> nth_error l j = Some b -> R a b.
Proof.
  induction 1 as [|x l S IH F]; intros i j a b Hij Hi Hj.
  - destruct i; discriminate.
  - destruct j as [|j]; [lia|]. cbn in Hj. destruct i as [|i]; cbn in Hi.
    + injection Hi as <-. rewrite Forall_forall in F.
      apply F. eapply nth_error_In; eassumption.
    + apply (IH i j); auto. lia.
Qed.

Lemma follows_lessThan a b :
  wellFormed a = true -> wellFormed b = true -> follows a b ->
  lessThan a b = true /\ overlaps a b = false.
Proof.
  intros Wa Wb F.
  destruct (wellFormed_inv a Wa) as (a1 & a2 & Ha1 & Ha2 & Hlt & _).
  destruct (wellFormed_inv b Wb) as (b1 & b2 & Hb1 & Hb2 & Hlt' & _).
  unfold follows, lessThan, overlaps in *. rewrite Ha1, Ha2, Hb1, Hb2 in *.
  apply js_le_Num in F. split; [apply js_lt_Num; lia|].
  apply andb_false_iff. right. apply js_gt_Num_false. lia.
Qed.

Lemma chained_addTimeSlot now s st :
  wellFormed s = true -> chained (timeSlots st) ->
  chained (timeSlots (store_after (addTimeSlot now s) st)).
Proof.
  intros W [WF SS]. unfold store_after.
  destruct (js_lt (getTime (end_ s)) (Num now)) eqn:S1;
    [rewrite (addTimeSlot_stale now s st S1); split; assumption|].
  destruct (existsb (clashes s) (timeSlots st)) eqn:S2;
    [rewrite (addTimeSlot_clash now s st S2); split; assumption|].
  destruct (addTimeSlot_accept now s st S1 S2) as (l1 & l2 & E & [PB PA] & R).
  rewrite R. cbn. apply existsb_false_Forall in S2.
  assert (B : forall e, In e l1 -> follows e s).
  { intros e I. rewrite Forall_forall in PB.
    apply (not_lessThan_before s (timeSlots st) W WF S2).
    - rewrite E. apply in_or_app. auto.
    - apply PB, I. }
  rewrite E in WF, SS. split.
  - apply Forall_app in WF. destruct WF as [WF1 WF2].
    apply Forall_app. split; [assumption|]. constructor; assumption.
  - apply StronglySorted_insert_between; [exact SS| |].
    + apply Forall_forall. exact B.
    + destruct PA as [-> | (y & rest & -> & L)]; [constructor|].
      assert (In2 : forall e, In e (y :: rest) -> In e (timeSlots st))
        by (intros e I; rewrite E; apply in_or_app; auto).
      assert (Wl : Forall (fun e => wellFormed e = true) (timeSlots st))
        by (rewrite E; exact WF).
      apply Forall_forall. intros e I.
      apply (lessThan_after s (timeSlots st) W Wl S2 e (In2 e I)).
      destruct I as [<- | I]; [exact L|].
      (* [e] comes after [y], which starts after [s] *)
      pose proof (StronglySorted_suffix _ _ _ SS) as SS2.
      inversion SS2 as [|? ? _ Fy]; subst. rewrite Forall_forall in Fy.
      specialize (Fy e I).
      apply Forall_app in WF. destruct WF as [_ WF2].
      rewrite Forall_forall in WF2.
      destruct (wellFormed_inv s W) as (a & b & Ha & Hb & _).
      destruct (wellFormed_inv y (WF2 y (or_introl eq_refl)))
        as (y1 & y2 & Hy1 & Hy2 & Hy & _).
      destruct (wellFormed_inv e (WF2 e (or_intror I)))
        as (e1 & e2 & He1 & He2 & _).
      unfold follows, lessThan in *. rewrite Ha, Hy1, Hy2, He1 in *.
      apply js_lt_Num in L. apply js_le_Num in Fy. apply js_lt_Num. lia.
Qed.

Lemma chained_removeTimeSlot s st :
  chained (timeSlots st) ->
  chained (timeSlots (store_after (removeTimeSlot s) st)).
Proof.
  intros [WF SS]. unfold store_after.
  destruct (removeTimeSlot_by_identity s st)
    as [[_ R] | (l1 & y & l2 & E & _ & _ & R)]; rewrite R; cbn.
  - split; assumption.
  - rewrite E in WF, SS. split.
    + apply Forall_app in WF. destruct WF as [WF1 WF2].
      apply Forall_app. split; [assumption|]. inversion WF2; assumption.
    + eapply StronglySorted_remove_between; eassumption.
Qed.

(** ** The queries leave the sequence alone *)

Lemma construct_some_run from to st :
  (s <- new_TimeSlot from to ;; ret (Some s)) st
  = match new_TimeSlot from to st with
    | (Normal s, st') => (Normal (Some s), st')
    | (Thrown e, st') => (Thrown e, st')
    end.
Proof. reflexivity. Qed.

Lemma nextFree_scan_keeps_timeSlots now slots rest i st :
  timeSlots (store_after (nextFree_scan now slots rest i) st) = timeSlots st.
Proof.
  revert i. induction rest as [|e rest IH]; intros i; cbn [nextFree_scan].
  - reflexivity.
  - destruct (Date_gt (start e) now); [|apply IH].
    assert (K : forall from to,
               timeSlots (store_after (s <- new_TimeSlot from to ;; ret (Some s)) st)
               = timeSlots st).
    { intros from to. unfold store_after. rewrite construct_some_run.
      pose proof (new_TimeSlot_keeps_timeSlots from to st) as H.
      unfold store_after in H.
      destruct (new_TimeSlot from to st) as [[s|err] st']; exact H. }
    destruct (Nat.eqb i 0); [apply K|].
    destruct (nth_error slots (i - 1)); [apply K | reflexivity].
Qed.

Lemma nextFree_scan_returns now slots rest i st s :
  outcome (nextFree_scan now slots rest i) st = Normal (Some s) ->
  ref s = allocated st /\ wellFormed s = true.
Proof.
  revert i. induction rest as [|e rest IH]; intros i; cbn [nextFree_scan].
  - discriminate.
  - destruct (Date_gt (start e) now); [|apply IH].
    assert (K : forall from to,
               outcome (s <- new_TimeSlot from to ;; ret (Some s)) st
               = Normal (Some s) ->
               ref s = allocated st /\ wellFormed s = true).
    { intros from to. unfold outcome. rewrite construct_some_run.
      pose proof (new_TimeSlot_returns from to st) as H. unfold outcome in H.
      destruct (new_TimeSlot from to st) as [[s'|err] st']; cbn;
        [|discriminate].
      intros X. injection X as <-. destruct (H s' eq_refl) as [-> W'].
      split; [reflexivity | exact W']. }
    destruct (Nat.eqb i 0); [apply K|].
    destruct (nth_error slots (i - 1)); [apply K | discriminate].
Qed.

Lemma nextFreeTimeSlot_keeps_timeSlots now st :
  timeSlots (store_after (nextFreeTimeSlot now) st) = timeSlots st.
Proof.
  unfold nextFreeTimeSlot, bind, read_timeSlots. cbn.
  apply nextFree_scan_keeps_timeSlots.
Qed.

(** C10: [isFree], [isBusy], [nextBusyTimeSlot] and [nextFreeTimeSlot] leave
    the sequence unchanged; the slot [nextFreeTimeSlot] returns is a new
    object, which is none of the stored ones. *)
Theorem queries_keep_timeSlots (st : Store) :
  (forall s, store_after (isFree s) st = st)
  /\ (forall now, store_after (isBusy now) st = st)
  /\ (forall clock, store_after (nextBusyTimeSlot clock) st = st)
  /\ (forall now,
        timeSlots (store_after (nextFreeTimeSlot now) st) = timeSlots st)
  /\ (forall now s,
        outcome (nextFreeTimeSlot now) st = Normal (Some s) ->
        ref s = allocated st
        /\ (Forall (fun e => (ref e < allocated st)%nat) (timeSlots st) ->
            Forall (fun e => same_object e s = false)
                   (timeSlots (store_after (nextFreeTimeSlot now) st)))).
Proof.
  pose proof (fun now => nextFreeTimeSlot_keeps_timeSlots now st) as K.
  split; [reflexivity|]. split; [reflexivity|]. split; [reflexivity|].
  split; [exact K|]. intros now s H.
  assert (R : ref s = allocated st).
  { unfold nextFreeTimeSlot, bind, read_timeSlots in H. cbn in H.
    apply (nextFree_scan_returns _ _ _ _ _ _ H). }
  split; [exact R|]. intros F. rewrite K.
  eapply Forall_impl; [|exact F]. cbn. intros e L.
  unfold same_object. apply Nat.eqb_neq. lia.
Qed.

(** ** The invariant holds after every call *)

Lemma chained_perform st c :
  call_wellFormed c -> chained (timeSlots st) ->
  chained (timeSlots (perform st c)).
Proof.
  destruct c as [now s | s | s | clock | now | now];
    unfold perform, call_wellFormed; intros W C; try exact C.
  - apply chained_addTimeSlot; assumption.
  - apply chained_removeTimeSlot; assumption.
  - rewrite nextFreeTimeSlot_keeps_timeSlots. exact C.
Qed.

Lemma chained_run calls :
  Forall call_wellFormed calls ->
  forall st, chained (timeSlots st) -> chained (timeSlots (run calls st)).
Proof.
  induction 1 as [|c calls W _ IH]; intros st C; cbn; [exact C|].
  apply IH, chained_perform; assumption.
Qed.

Lemma chained_strict_disjoint l :
  chained l ->
  (forall i j a b, (i < j)%nat ->
     nth_error l i = Some a -> nth_error l j = Some b -> lessThan a b = true)
  /\ (forall i j a b, i <> j ->
        nth_error l i = Some a -> nth_error l j = Some b -> overlaps a b = false).
Proof.
  intros [WF SS]. rewrite Forall_forall in WF.
  assert (P : forall i j a b, (i < j)%nat ->
            nth_error l i = Some a -> nth_error l j = Some b ->
            lessThan a b = true /\ overlaps a b = false).
  { intros i j a b Hij Hi Hj. apply follows_lessThan.
    - apply WF. eapply nth_error_In; eassumption.
    - apply WF. eapply nth_error_In; eassumption.
    - eapply StronglySorted_nth; eassumption. }
  split.
  - intros i j a b Hij Hi Hj. apply (P i j a b Hij Hi Hj).
  - intros i j a b Hij Hi Hj.
    destruct (Nat.lt_ge_cases i j) as [L|L].
    + apply (P i j a b L Hi Hj).
    + rewrite overlaps_sym. apply (P j i b a); auto. lia.
Qed.

(** C3: starting from an empty schedule, after every call of a sequence of
    calls (the slots added being well-formed) the sequence is strictly
    ascending by start and no two of its elements overlap. *)
Theorem schedule_invariant (calls : list Call) (objects k : nat) :
  Forall call_wellFormed calls ->
  let l := timeSlots (run (firstn k calls) (new_Schedule objects)) in
  (forall i j a b, (i < j)%nat ->
     nth_error l i = Some a -> nth_error l j = Some b -> lessThan a b = true)
  /\ (forall i j a b, i <> j ->
        nth_error l i = Some a -> nth_error l j = Some b -> overlaps a b = false).
Proof.
  intros W l. apply chained_strict_disjoint. apply chained_run.
  - rewrite <- (firstn_skipn k calls) in W.
    apply Forall_app in W. apply W.
  - split; constructor.
Qed.

(** ** Adding, then removing *)

Lemma indexOf_from_first {A} (eqb : A -> A -> bool) (x y : A) (l1 l2 : list A) (i : Z) :
  Forall (fun e => eqb e x = false) l1 -> eqb y x = true ->
  indexOf_from eqb (l1 ++ y :: l2) x i = i + Z.of_nat (length l1).
Proof.
  intros F E. revert i. induction F as [|e l1 N _ IH]; intros i; cbn [app indexOf_from].
  - rewrite E. cbn. lia.
  - rewrite N, IH. cbn [length]. lia.
Qed.

Lemma removeTimeSlot_first before after s objects :
  Forall (fun e => same_object e s = false) before ->
  removeTimeSlot s (mkStore (before ++ s :: after) objects)
  = (Normal true, mkStore (before ++ after) objects).
Proof.
  intros F. unfold removeTimeSlot, bind, read_timeSlots, write_timeSlots, ret.
  cbn [timeSlots allocated].
  rewrite (indexOf_from_first same_object s s before after 0 F)
    by (unfold same_object; apply Nat.eqb_refl).
  cbn [Z.add].
  destruct (Z.of_nat (length before) =? -1) eqn:N; [apply Z.eqb_eq in N; lia|].
  rewrite Nat2Z.id, splice_delete_one. reflexivity.
Qed.

(** Removal with the very object that was added: when [addTimeSlot(s)]
    returns [true], calling [removeTimeSlot(s)] with the same reference
    right after restores the store.  A reference denotes one object: a
    stored slot with the identity of [s] is [s]. *)
Lemma addTimeSlot_then_removeTimeSlot (now : Z) (s : TimeSlot) (st : Store) :
  wellFormed s = true ->
  (forall e, In e (timeSlots st) -> ref e = ref s -> e = s) ->
  outcome (addTimeSlot now s) st = Normal true ->
  removeTimeSlot s (store_after (addTimeSlot now s) st) = (Normal true, st).
Proof.
  intros W Coh T. apply addTimeSlot_true_iff in T. destruct T as [S1 S2].
  destruct (addTimeSlot_accept now s st S1 S2) as (before & after & E & _ & R).
  unfold store_after. rewrite R. cbn [snd].
  apply existsb_false_Forall in S2. rewrite Forall_forall in S2.
  rewrite removeTimeSlot_first.
  - destruct st as [l n]. cbn in *. rewrite E. reflexivity.
  - apply Forall_forall. intros e I. unfold same_object.
    apply Nat.eqb_neq. intros Q.
    assert (Ie : In e (timeSlots st)) by (rewrite E; apply in_or_app; auto).
    pose proof (Coh e Ie Q) as ->.
    pose proof (S2 s Ie) as X.
    rewrite (equals_clashes s s W (equals_refl s W)) in X. discriminate.
Qed.

(** C4 (the code departs from the claim): after [addTimeSlot(s)] has
    returned [true], [removeTimeSlot] called with the same slot value, a
    slot [c] with the endpoints of [s] that is another object, returns
    [false] and removes nothing: [s] stays stored and the sequence is not
    the one before the addition. *)
Theorem addTimeSlot_then_remove_equal_copy (now : Z) (s c : TimeSlot) (st : Store) :
  wellFormed s = true ->
  outcome (addTimeSlot now s) st = Normal true ->
  equals c s = true ->
  ref c <> ref s ->
  (forall e, In e (timeSlots st) -> ref e <> ref c) ->
  let st' := store_after (addTimeSlot now s) st in
  removeTimeSlot c st' = (Normal false, st')
  /\ In s (timeSlots st')
  /\ timeSlots st' <> timeSlots st.
Proof.
  intros W T E Nref Fresh. apply addTimeSlot_true_iff in T.
  destruct T as [S1 S2].
  destruct (addTimeSlot_accept now s st S1 S2) as (before & after & E' & _ & R).
  unfold store_after. rewrite R. cbn [snd timeSlots].
  split; [|split].
  - destruct (removeTimeSlot_by_identity c
                (mkStore (before ++ s :: after) (allocated st)))
      as [[_ Q] | (l1 & y & l2 & Ey & _ & Y & _)]; [exact Q|].
    exfalso. cbn [timeSlots] in Ey.
    assert (I : In y (before ++ s :: after))
      by (rewrite Ey; apply in_or_app; right; left; reflexivity).
    unfold same_object in Y. apply Nat.eqb_eq in Y.
    apply in_app_or in I. destruct I as [I | [<- | I]].
    + apply (Fresh y); [rewrite E'; apply in_or_app; auto | exact Y].
    + apply Nref. symmetry. exact Y.
    + apply (Fresh y); [rewrite E'; apply in_or_app; auto | exact Y].
  - apply in_or_app. right. left. reflexivity.
  - intros Q. apply (f_equal (@length TimeSlot)) in Q.
    rewrite E', !length_app in Q. cbn [length] in Q. lia.
Qed.

(** ** Adjacent slots *)

Lemma js_lt_irrefl x : js_lt x x = false.
Proof. destruct x; cbn; [reflexivity | apply Z.ltb_irrefl]. Qed.

Lemma js_gt_irrefl x : js_gt x x = false.
Proof. destruct x; cbn; [reflexivity|]. rewrite Z.gtb_ltb. apply Z.ltb_irrefl. Qed.

(** C9: a slot [s] that begins when a stored slot [e] ends, or ends when
    [e] begins, does not overlap [e]; when [s] is not stale and overlaps no
    other stored slot, [addTimeSlot(s)] returns [true] and both are stored. *)
Theorem adjacent_slot_accepted (now : Z) (s e : TimeSlot) (st : Store) :
  In e (timeSlots st) ->
  getTime (start s) = getTime (end_ e) \/ getTime (end_ s) = getTime (start e) ->
  js_lt (getTime (end_ s)) (Num now) = false ->
  (forall e', In e' (timeSlots st) -> e' <> e -> overlaps s e' = false) ->
  overlaps s e = false
  /\ outcome (addTimeSlot now s) st = Normal true
  /\ In s (timeSlots (store_after (addTimeSlot now s) st))
  /\ In e (timeSlots (store_after (addTimeSlot now s) st)).
Proof.
  intros I Adj S1 Others.
  assert (O : overlaps s e = false).
  { unfold overlaps. destruct Adj as [-> | ->].
    - rewrite js_lt_irrefl. reflexivity.
    - rewrite js_gt_irrefl. apply andb_false_r. }
  assert (S2 : existsb (clashes s) (timeSlots st) = false).
  { apply existsb_false_Forall, Forall_forall. intros e' I'.
    rewrite clashes_overlaps. destruct (overlaps s e') eqn:C; [|reflexivity].
    rewrite <- C. apply Others; [exact I'|]. intros ->. congruence. }
  split; [exact O|]. split; [apply addTimeSlot_true_iff; auto|].
  destruct (addTimeSlot_accept now s st S1 S2) as (before & after & E & _ & R).
  unfold store_after. rewrite R. cbn [snd timeSlots]. split.
  - apply in_or_app. right. left. reflexivity.
  - rewrite E in I. apply in_app_or in I. apply in_or_app.
    destruct I as [I|I]; [left | right; right]; exact I.
Qed.

(** ** The first slot that starts after an instant *)

Lemma nextBusy_scan_spec now (l : list TimeSlot) (k : nat) :
  (nextBusy_scan (fun _ => now) k l = None
   /\ Forall (fun e => Date_gt (start e) (Date_now now) = false) l)
  \/ (exists pre s post,
        l = pre ++ s :: post
        /\ Forall (fun e => Date_gt (start e) (Date_now now) = false) pre
        /\ Date_gt (start s) (Date_now now) = true
        /\ nextBusy_scan (fun _ => now) k l = Some s).
Proof.
  revert k. induction l as [|e l IH]; intros k; cbn [nextBusy_scan].
  - left. split; [reflexivity | constructor].
  - fold (Date_gt (start e) (Date_now now)).
    destruct (Date_gt (start e) (Date_now now)) eqn:G.
    + right. exists [], e, l. repeat split; auto.
    + destruct (IH (S k)) as [[N F] | (pre & s & post & -> & F & Gs & R)].
      * left. split; [exact N | constructor; assumption].
      * right. exists (e :: pre), s, post. repeat split; auto.
Qed.

Lemma first_future_slot now (l : list TimeSlot) :
  (exists e, In e l /\ Date_gt (start e) (Date_now now) = true) ->
  exists i si,
    nth_error l i = Some si
    /\ Date_gt (start si) (Date_now now) = true
    /\ (forall j sj, (j < i)%nat -> nth_error l j = Some sj ->
                     Date_gt (start sj) (Date_now now) = false).
Proof.
  intros (e & I & G).
  destruct (nextBusy_scan_spec now l 0)
    as [[_ F] | (pre & s & post & E & F & Gs & _)].
  - rewrite Forall_forall in F. rewrite (F e I) in G. discriminate.
  - exists (length pre), s. split; [|split; [exact Gs|]].
    + rewrite E, nth_error_app2, Nat.sub_diag by lia. reflexivity.
    + intros j sj L Hj. rewrite E, nth_error_app1 in Hj by exact L.
      rewrite Forall_forall in F. apply F. eapply nth_error_In; eassumption.
Qed.

(** ** nextFreeTimeSlot *)

Lemma new_TimeSlot_unordered from to st a b :
  getTime from = Num a -> getTime to = Num b -> a >= b ->
  new_TimeSlot from to st
  = (Thrown (mkError "The start time must be before the end time."),
     mkStore (timeSlots st) (S (allocated st))).
Proof.
  intros Ha Hb Hge. unfold new_TimeSlot, bind, allocate.
  rewrite Ha, Hb. cbn [isNaN].
  assert (G : js_ge (Num a) (Num b) = true) by (apply js_ge_Num; lia).
  rewrite G. reflexivity.
Qed.

Lemma new_TimeSlot_too_long from to st a b :
  getTime from = Num a -> getTime to = Num b -> b - a > day_ms ->
  new_TimeSlot from to st
  = (Thrown (mkError "The time slot cannot be longer than 24 hours."),
     mkStore (timeSlots st) (S (allocated st))).
Proof.
  intros Ha Hb Hd. unfold day_ms in Hd. unfold new_TimeSlot, bind, allocate.
  rewrite Ha, Hb. cbn [isNaN js_sub].
  assert (G : js_ge (Num a) (Num b) = false) by (apply js_ge_Num_false; lia).
  rewrite G.
  assert (D : js_gt (Num (b - a)) (Num (1000 * 60 * 60 * 24)) = true)
    by (apply js_gt_Num; lia).
  rewrite D. reflexivity.
Qed.

Lemma nextFree_scan_skip now slots pre rest i :
  Forall (fun e => Date_gt (start e) now = false) pre ->
  nextFree_scan now slots (pre ++ rest) i
  = nextFree_scan now slots rest (i + length pre).
Proof.
  intros F. revert i.
  induction F as [|e pre N _ IH]; intros i; cbn [app nextFree_scan length].
  - rewrite Nat.add_0_r. reflexivity.
  - rewrite N, IH. f_equal. lia.
Qed.

Lemma nextFreeTimeSlot_at now st i si :
  nth_error (timeSlots st) i = Some si ->
  Date_gt (start si) (Date_now now) = true ->
  (forall j sj, (j < i)%nat -> nth_error (timeSlots st) j = Some sj ->
                Date_gt (start sj) (Date_now now) = false) ->
  nextFreeTimeSlot now st
  = (s <- new_TimeSlot (gap_start now (timeSlots st) i) (start si) ;;
     ret (Some s)) st.
Proof.
  intros Hi G Before.
  destruct (nth_error_split _ _ Hi) as (pre & post & E & L).
  assert (F : Forall (fun e => Date_gt (start e) (Date_now now) = false) pre).
  { apply Forall_forall. intros e I.
    destruct (In_nth_error _ _ I) as [j Hj].
    assert (Lj : (j < length pre)%nat)
      by (apply nth_error_Some; rewrite Hj; discriminate).
    apply (Before j e); [lia|]. rewrite E, nth_error_app1; assumption. }
  unfold nextFreeTimeSlot, bind at 1, read_timeSlots.
  rewrite E at 2. rewrite (nextFree_scan_skip _ _ _ _ _ F).
  cbn [nextFree_scan Nat.add]. rewrite G, L.
  destruct i as [|p]; cbn [Nat.eqb gap_start]; [reflexivity|].
  replace (S p - 0)%nat with (S p) by lia.
  replace (S p - 1)%nat with p by lia.
  destruct (nth_error (timeSlots st) p) as [prev|] eqn:P; [reflexivity|].
  apply nth_error_None in P. rewrite E, length_app in P. cbn in P. lia.
Qed.

(** The outcome of [nextFreeTimeSlot] when slot [i] is the first to start
    after the instant of the call. *)
Lemma nextFreeTimeSlot_gap (now : Z) (st : Store) (i : nat) (si : TimeSlot) :
  nth_error (timeSlots st) i = Some si ->
  Date_gt (start si) (Date_now now) = true ->
  (forall j sj, (j < i)%nat -> nth_error (timeSlots st) j = Some sj ->
                Date_gt (start sj) (Date_now now) = false) ->
  let from := gap_start now (timeSlots st) i in
  (forall s st', new_TimeSlot from (start si) st = (Normal s, st') ->
     nextFreeTimeSlot now st = (Normal (Some s), st')
     /\ s = mkTimeSlot (allocated st) from (start si))
  /\ (forall e st', new_TimeSlot from (start si) st = (Thrown e, st') ->
        nextFreeTimeSlot now st = (Thrown e, st'))
  /\ (forall a b, getTime from = Num a -> getTime (start si) = Num b ->
        (a < b -> b - a <= day_ms ->
         outcome (nextFreeTimeSlot now) st
         = Normal (Some (mkTimeSlot (allocated st) from (start si))))
        /\ (a >= b ->
            exists e, outcome (nextFreeTimeSlot now) st = Thrown e
                      /\ OrderingError e)
        /\ (b - a > day_ms ->
            exists e, outcome (nextFreeTimeSlot now) st = Thrown e
                      /\ DurationError e)).
Proof.
  intros Hi G Before from.
  pose proof (nextFreeTimeSlot_at now st i si Hi G Before) as R.
  fold from in R. rewrite construct_some_run in R.
  split; [|split].
  - intros s st' C. rewrite C in R. split; [exact R|].
    apply (new_TimeSlot_returns from (start si) st s).
    unfold outcome. rewrite C. reflexivity.
  - intros e st' C. rewrite C in R. exact R.
  - intros a b Ha Hb. unfold outcome. rewrite R. split; [|split].
    + intros Hlt Hd. rewrite (new_TimeSlot_valid _ _ st a b Ha Hb Hlt Hd).
      reflexivity.
    + intros Hge. rewrite (new_TimeSlot_unordered _ _ st a b Ha Hb Hge).
      eexists. split; reflexivity.
    + intros Hd. rewrite (new_TimeSlot_too_long _ _ st a b Ha Hb Hd).
      eexists. split; reflexivity.
Qed.

(** C5: when some slot starts after the instant of the call, with [i] the
    first such slot, [nextFreeTimeSlot] constructs a new slot from the end
    of slot [i - 1] (from the current instant when [i] is 0) to the start of
    slot [i] and returns it; when the construction throws (an empty gap, a
    gap of more than 24 hours) the error reaches the caller. *)
Theorem nextFreeTimeSlot_first_future (now : Z) (st : Store) :
  (exists e, In e (timeSlots st) /\ Date_gt (start e) (Date_now now) = true) ->
  exists i si,
    nth_error (timeSlots st) i = Some si
    /\ Date_gt (start si) (Date_now now) = true
    /\ (forall j sj, (j < i)%nat -> nth_error (timeSlots st) j = Some sj ->
                     Date_gt (start sj) (Date_now now) = false)
    /\ let from := gap_start now (timeSlots st) i in
       (forall s st', new_TimeSlot from (start si) st = (Normal s, st') ->
          nextFreeTimeSlot now st = (Normal (Some s), st')
          /\ s = mkTimeSlot (allocated st) from (start si))
       /\ (forall e st', new_TimeSlot from (start si) st = (Thrown e, st') ->
             nextFreeTimeSlot now st = (Thrown e, st'))
       /\ (forall a b, getTime from = Num a -> getTime (start si) = Num b ->
             (a < b -> b - a <= day_ms ->
              outcome (nextFreeTimeSlot now) st
              = Normal (Some (mkTimeSlot (allocated st) from (start si))))
             /\ (a >= b ->
                 exists e, outcome (nextFreeTimeSlot now) st = Thrown e
                           /\ OrderingError e)
             /\ (b - a > day_ms ->
                 exists e, outcome (nextFreeTimeSlot now) st = Thrown e
                           /\ DurationError e)).
Proof.
  intros H.
  destruct (first_future_slot now (timeSlots st) H) as (i & si & Hi & G & B).
  exists i, si. split; [exact Hi|]. split; [exact G|]. split; [exact B|].
  apply nextFreeTimeSlot_gap; assumption.
Qed.

(** C6: when no slot starts after the instant of the call, as in an empty
    schedule or one whose only slot is in progress, [nextFreeTimeSlot]
    returns [null] and changes nothing. *)
Theorem nextFreeTimeSlot_none (now : Z) (st : Store) :
  (forall e, In e (timeSlots st) -> Date_gt (start e) (Date_now now) = false) ->
  nextFreeTimeSlot now st = (Normal None, st).
Proof.
  intros H. unfold nextFreeTimeSlot, bind, read_timeSlots.
  rewrite <- (app_nil_r (timeSlots st)) at 2.
  rewrite nextFree_scan_skip by (apply Forall_forall; exact H).
  reflexivity.
Qed.

(** ** nextBusyTimeSlot *)


Lemma lessThanOrEqual_trans a b c :
  lessThanOrEqual a b = true -> lessThanOrEqual b c = true ->
  lessThanOrEqual a c = true.
Proof.
  unfold lessThanOrEqual.
  destruct (getTime (start a)), (getTime (start b)), (getTime (start c));
    cbn; try discriminate.
  rewrite !Z.leb_le. lia.
Qed.

Lemma ascending_from_head s post :
  ascending (s :: post) ->
  Forall (fun e => lessThanOrEqual s e = true) post.
Proof.
  intros A. apply Sorted_StronglySorted in A.
  - inversion A; assumption.
  - intros x y z. apply lessThanOrEqual_trans.
Qed.

Lemma Sorted_suffix {A} (R : A -> A -> Prop) (l1 l2 : list A) :
  Sorted R (l1 ++ l2) -> Sorted R l2.
Proof.
  induction l1 as [|a l1 IH]; cbn; intros S; [exact S|].
  inversion S; subst. apply IH. assumption.
Qed.

(** The case of a clock that shows [now] at every reading: on a sequence
    ascending by start, [nextBusyTimeSlot] returns the first slot that
    starts after [now], no slot that starts after [now] starts earlier, and
    it returns [null] when no slot starts after [now]. *)
Lemma nextBusyTimeSlot_spec (now : Z) (st : Store) :
  ascending (timeSlots st) ->
  (exists pre s post,
     timeSlots st = pre ++ s :: post
     /\ Forall (fun e => Date_gt (start e) (Date_now now) = false) pre
     /\ Date_gt (start s) (Date_now now) = true
     /\ (forall e, In e (timeSlots st) ->
           Date_gt (start e) (Date_now now) = true ->
           lessThanOrEqual s e = true)
     /\ nextBusyTimeSlot (fun _ => now) st = (Normal (Some s), st))
  \/ ((forall e, In e (timeSlots st) ->
         Date_gt (start e) (Date_now now) = false)
      /\ nextBusyTimeSlot (fun _ => now) st = (Normal None, st)).
Proof.
  intros A. unfold nextBusyTimeSlot, bind, read_timeSlots, ret.
  destruct (nextBusy_scan_spec now (timeSlots st) 0)
    as [[N F] | (pre & s & post & E & F & G & R)].
  - right. rewrite N. split; [|reflexivity]. apply Forall_forall. exact F.
  - left. exists pre, s, post. rewrite R. repeat split; auto.
    intros e I Ge. rewrite E in I, A. apply in_app_or in I.
    destruct I as [I | [<- | I]].
    + rewrite Forall_forall in F. rewrite (F e I) in Ge. discriminate.
    + unfold Date_gt in Ge. unfold lessThanOrEqual.
      destruct (getTime (start s)) as [|a]; [discriminate|].
      cbn. apply Z.leb_refl.
    + apply Sorted_suffix in A.
      pose proof (ascending_from_head s post A) as H.
      rewrite Forall_forall in H. apply H, I.
Qed.

(** ** Concrete schedules *)

(** The scenario of the specification: a slot is added to the empty
    schedule, an overlapping one is refused, an earlier disjoint one is
    added and comes first. *)
Example addTimeSlot_scenario :
  let overlapping := mkTimeSlot 4 (mkDate (Num 5400000)) (mkDate (Num 9000000)) in
  (r1 <- addTimeSlot 0 slot_late ;;
   r2 <- addTimeSlot 0 overlapping ;;
   r3 <- addTimeSlot 0 slot_early ;;
   ret (r1, r2, r3)) (new_Schedule 5)
  = (Normal (true, false, true), mkStore [slot_early; slot_late] 5).
Proof. reflexivity. Qed.

Lemma new_TimeSlot_spec_witness :
  exists s,
    outcome (new_TimeSlot (mkDate (Num 5000)) (mkDate (Num 86405000)))
            (new_Schedule 0) = Normal s
    /\ start s = mkDate (Num 5000) /\ end_ s = mkDate (Num 86405000).
Proof.
  destruct (new_TimeSlot_spec (mkDate (Num 5000)) (mkDate (Num 86405000))
                              (new_Schedule 0)) as [_ H].
  destruct (H 5000 86405000 eq_refl eq_refl) as (_ & _ & _ & D).
  apply D. reflexivity.
Defined.

Lemma addTimeSlot_spec_witness :
  wellFormed slot_early = true
  /\ exists before after,
       [slot_late] = before ++ after
       /\ addTimeSlot 0 slot_early (mkStore [slot_late] 2)
          = (Normal true, mkStore (before ++ slot_early :: after) 2)
       /\ strictly_ascending (before ++ slot_early :: after).
Proof.
  split; [reflexivity|].
  destruct (addTimeSlot_spec 0 slot_early (mkStore [slot_late] 2) eq_refl)
    as (_ & _ & H).
  destruct H as (before & after & E & _ & R & _ & _ & S).
  - reflexivity.
  - intros e [<- | []]. reflexivity.
  - exists before, after. split; [exact E|]. split; [exact R|].
    apply S; repeat constructor.
Defined.

Lemma schedule_invariant_witness :
  Forall call_wellFormed example_calls
  /\ timeSlots (run (firstn 2 example_calls) (new_Schedule 2))
     = [slot_early; slot_late]
  /\ lessThan slot_early slot_late = true
  /\ overlaps slot_early slot_late = false.
Proof.
  assert (W : Forall call_wellFormed example_calls).
  { constructor; [reflexivity|]. constructor; [reflexivity|].
    constructor; [exact I | constructor]. }
  split; [exact W|]. split; [reflexivity|].
  destruct (schedule_invariant example_calls 2 2 W) as [H1 H2].
  split.
  - apply (H1 0%nat 1%nat); [lia | reflexivity | reflexivity].
  - apply (H2 0%nat 1%nat); [lia | reflexivity | reflexivity].
Defined.

Lemma addTimeSlot_then_removeTimeSlot_witness :
  wellFormed slot_early = true
  /\ outcome (addTimeSlot 0 slot_early) (mkStore [slot_late] 2) = Normal true
  /\ removeTimeSlot slot_early
       (store_after (addTimeSlot 0 slot_early) (mkStore [slot_late] 2))
     = (Normal true, mkStore [slot_late] 2).
Proof.
  split; [reflexivity|]. split; [reflexivity|].
  apply addTimeSlot_then_removeTimeSlot; [reflexivity| |reflexivity].
  intros e [<- | []] Q. discriminate Q.
Defined.

Lemma nextFreeTimeSlot_first_future_witness :
  (* the first slot is an hour away: the gap [now, 1h) is returned *)
  outcome (nextFreeTimeSlot 0) (mkStore [slot_late; slot_next] 4)
  = Normal (Some (mkTimeSlot 4 (Date_now 0) (start slot_late)))
  (* [late] is running and [next] begins when it ends: the gap is empty *)
  /\ exists e,
       outcome (nextFreeTimeSlot 5400000) (mkStore [slot_late; slot_next] 4)
       = Thrown e /\ OrderingError e.
Proof.
  split.
  - destruct (nextFreeTimeSlot_first_future 0 (mkStore [slot_late; slot_next] 4))
      as (i & si & Hi & _ & B & _ & _ & H).
    + exists slot_late. split; [left; reflexivity | reflexivity].
    + destruct i as [|i].
      * injection Hi as <-.
        destruct (H 0 3600000 eq_refl eq_refl) as (V & _ & _).
        apply V; [lia | unfold day_ms; lia].
      * discriminate (B 0%nat slot_late ltac:(lia) eq_refl).
  - destruct (nextFreeTimeSlot_first_future 5400000
                (mkStore [slot_late; slot_next] 4))
      as (i & si & Hi & G & B & _ & _ & H).
    + exists slot_next. split; [right; left; reflexivity | reflexivity].
    + destruct i as [|[|i]].
      * injection Hi as <-. discriminate G.
      * injection Hi as <-.
        destruct (H 7200000 7200000 eq_refl eq_refl) as (_ & O & _).
        apply O. lia.
      * discriminate (B 1%nat slot_next ltac:(lia) eq_refl).
Defined.

Lemma nextFreeTimeSlot_none_witness :
  outcome (isBusy 600000) (mkStore [slot_running] 4) = Normal true
  /\ nextFreeTimeSlot 600000 (mkStore [slot_running] 4)
     = (Normal None, mkStore [slot_running] 4)
  /\ nextFreeTimeSlot 600000 (new_Schedule 0) = (Normal None, new_Schedule 0).
Proof.
  split; [reflexivity|]. split.
  - apply nextFreeTimeSlot_none. intros e [<- | []]. reflexivity.
  - apply nextFreeTimeSlot_none. intros e [].
Defined.

Lemma nextBusyTimeSlot_spec_witness :
  ascending [slot_early; slot_late]
  /\ exists r,
       nextBusyTimeSlot (fun _ => 1000000) (mkStore [slot_early; slot_late] 2)
       = (Normal r, mkStore [slot_early; slot_late] 2).
Proof.
  assert (A : ascending [slot_early; slot_late]) by (repeat constructor).
  split; [exact A|].
  destruct (nextBusyTimeSlot_spec 1000000 (mkStore [slot_early; slot_late] 2) A)
    as [(pre & s & post & _ & _ & _ & _ & R) | [_ R]]; eexists; exact R.
Defined.

Lemma adjacent_slot_accepted_witness :
  getTime (start slot_next) = getTime (end_ slot_late)
  /\ overlaps slot_next slot_late = false
  /\ outcome (addTimeSlot 0 slot_next) (mkStore [slot_late] 3) = Normal true
  /\ In slot_next
        (timeSlots (store_after (addTimeSlot 0 slot_next) (mkStore [slot_late] 3)))
  /\ In slot_late
        (timeSlots (store_after (addTimeSlot 0 slot_next) (mkStore [slot_late] 3))).
Proof.
  split; [reflexivity|].
  apply (adjacent_slot_accepted 0 slot_next slot_late (mkStore [slot_late] 3)).
  - left. reflexivity.
  - left. reflexivity.
  - reflexivity.
  - intros e' [<- | []] N. exfalso. apply N. reflexivity.
Defined.

Lemma queries_keep_timeSlots_witness :
  timeSlots (store_after (nextFreeTimeSlot 0) (mkStore [slot_late; slot_next] 4))
  = [slot_late; slot_next]
  /\ store_after (isBusy 0) (mkStore [slot_late; slot_next] 4)
     = mkStore [slot_late; slot_next] 4.
Proof.
  destruct (queries_keep_timeSlots (mkStore [slot_late; slot_next] 4))
    as (_ & B & _ & F & _).
  split; [apply F | apply B].
Defined.

(** * Further properties of the code *)

(** ** The predicates of TimeSlot *)

Lemma js_seq_sym x y : js_seq x y = js_seq y x.
Proof. destruct x, y; cbn; try reflexivity. apply Z.eqb_sym. Qed.

Lemma equals_inv a b :
  equals a b = true ->
  exists x y, getTime (start a) = Num x /\ getTime (start b) = Num x
              /\ getTime (end_ a) = Num y /\ getTime (end_ b) = Num y.
Proof.
  unfold equals. intros H. apply andb_true_iff in H. destruct H as [H1 H2].
  destruct (getTime (start a)) as [|x], (getTime (start b)) as [|x'];
    try discriminate.
  destruct (getTime (end_ a)) as [|y], (getTime (end_ b)) as [|y'];
    try discriminate.
  cbn in H1, H2. apply Z.eqb_eq in H1, H2. subst. exists x', y'. auto.
Qed.

(** X1: [notEquals] is the negation of [equals]; [equals] is symmetric and
    transitive, and reflexive on the slots the constructor returns. *)
Theorem equals_notEquals :
  (forall a b, notEquals a b = negb (equals a b))
  /\ (forall a b, equals a b = equals b a)
  /\ (forall a b c, equals a b = true -> equals b c = true -> equals a c = true)
  /\ (forall a, wellFormed a = true -> equals a a = true).
Proof.
  split; [|split; [|split]].
  - intros a b. unfold notEquals, equals, js_sneq.
    rewrite negb_andb. reflexivity.
  - intros a b. unfold equals.
    rewrite (js_seq_sym (getTime (start a))), (js_seq_sym (getTime (end_ a))).
    reflexivity.
  - intros a b c H1 H2.
    destruct (equals_inv a b H1) as (x & y & Ha1 & Hb1 & Ha2 & Hb2).
    destruct (equals_inv b c H2) as (x' & y' & Hb1' & Hc1 & Hb2' & Hc2).
    unfold equals. rewrite Ha1, Ha2, Hc1, Hc2. cbn.
    rewrite Hb1 in Hb1'. rewrite Hb2 in Hb2'.
    injection Hb1' as ->. injection Hb2' as ->.
    rewrite !Z.eqb_refl. reflexivity.
  - apply equals_refl.
Qed.

Lemma addTimeSlot_outcome now s st :
  outcome (addTimeSlot now s) st
  = Normal (negb (js_lt (getTime (end_ s)) (Num now))
            && negb (existsb (clashes s) (timeSlots st))).
Proof.
  unfold outcome, addTimeSlot, bind, read_timeSlots, write_timeSlots, ret, clashes.
  cbn. destruct (js_lt (getTime (end_ s)) (Num now)); [reflexivity|].
  destruct (existsb _ (timeSlots st)); [reflexivity|].
  destruct (insertion_index s (timeSlots st) 0); reflexivity.
Qed.

(** X2: slots that are [equals] cannot be told apart by the comparisons,
    [overlaps], [contains], [isFree] or the result of [addTimeSlot]: these
    depend on the two endpoints only. *)
Theorem equals_congruence (a b : TimeSlot) :
  equals a b = true ->
  (forall c, lessThan a c = lessThan b c /\ lessThan c a = lessThan c b
             /\ overlaps a c = overlaps b c /\ overlaps c a = overlaps c b)
  /\ (forall d, contains a d = contains b d)
  /\ (forall now st,
        outcome (addTimeSlot now a) st = outcome (addTimeSlot now b) st
        /\ outcome (isFree a) st = outcome (isFree b) st).
Proof.
  intros E. destruct (equals_inv a b E) as (x & y & Ha1 & Hb1 & Ha2 & Hb2).
  split; [|split].
  - intros c. unfold lessThan, overlaps. rewrite Ha1, Hb1, Ha2, Hb2. auto.
  - intros d. unfold contains. rewrite Ha1, Hb1, Ha2, Hb2. reflexivity.
  - intros now st. split.
    + rewrite !addTimeSlot_outcome. unfold clashes.
      rewrite Ha1, Hb1, Ha2, Hb2. reflexivity.
    + unfold outcome, isFree, bind, read_timeSlots, ret, overlaps. cbn.
      rewrite Ha1, Hb1, Ha2, Hb2. reflexivity.
Qed.

(** X3: for two slots with valid start dates the four comparisons order the
    starts: [lessThan] and [greaterThan] are the complements of
    [greaterThanOrEqual] and [lessThanOrEqual], each comparison is the other
    one with the operands exchanged, and both or-equal comparisons hold
    exactly when the starts coincide, whatever the ends. *)
Theorem start_comparisons (a b : TimeSlot) (x y : Z) :
  getTime (start a) = Num x -> getTime (start b) = Num y ->
  lessThan a b = negb (greaterThanOrEqual a b)
  /\ greaterThan a b = negb (lessThanOrEqual a b)
  /\ lessThan a b = greaterThan b a
  /\ lessThanOrEqual a b = greaterThanOrEqual b a
  /\ (lessThan a b = true <-> x < y)
  /\ (greaterThan a b = true <-> y < x)
  /\ (lessThanOrEqual a b && greaterThanOrEqual a b = true <-> x = y).
Proof.
  intros Ha Hb.
  unfold lessThan, greaterThan, lessThanOrEqual, greaterThanOrEqual.
  rewrite Ha, Hb. cbn. rewrite !Z.gtb_ltb, !Z.geb_leb.
  repeat split; try (apply Z.ltb_antisym); try reflexivity.
  - apply Z.ltb_lt.
  - apply Z.ltb_lt.
  - apply Z.ltb_lt.
  - apply Z.ltb_lt.
  - intros H. apply andb_true_iff in H. rewrite !Z.leb_le in H. lia.
  - intros ->. rewrite Z.leb_refl. reflexivity.
Qed.

(** X4: a slot whose start is an invalid date compares [false] with every
    slot under all four comparisons, in both positions; it overlaps no
    slot, contains no date and is not [equals] to any slot, itself
    included. *)
Theorem invalid_start_compares_false (a : TimeSlot) :
  getTime (start a) = NaN ->
  forall b d,
    lessThan a b = false /\ lessThan b a = false
    /\ greaterThan a b = false /\ greaterThan b a = false
    /\ lessThanOrEqual a b = false /\ lessThanOrEqual b a = false
    /\ greaterThanOrEqual a b = false /\ greaterThanOrEqual b a = false
    /\ overlaps a b = false /\ overlaps b a = false
    /\ contains a d = false
    /\ equals a b = false /\ equals a a = false /\ notEquals a a = true.
Proof.
  intros Ha b d.
  unfold lessThan, greaterThan, lessThanOrEqual, greaterThanOrEqual,
    overlaps, contains, equals, notEquals, js_sneq.
  rewrite Ha.
  destruct (getTime (start b)), (getTime (end_ b)), (getTime (end_ a)),
    (getTime d); cbn; rewrite ?andb_false_r; repeat split; reflexivity.
Qed.

(** X5: a slot is half-open: it contains its start, does not contain its
    end, and contains exactly the instants from its start up to, and
    excluding, its end. *)
Theorem contains_half_open (s : TimeSlot) :
  wellFormed s = true ->
  contains s (start s) = true
  /\ contains s (end_ s) = false
  /\ (forall t, contains s (Date_now t) = true
                <-> exists a b, getTime (start s) = Num a
                                /\ getTime (end_ s) = Num b /\ a <= t < b).
Proof.
  intros W. destruct (wellFormed_inv s W) as (a & b & Ha & Hb & Hlt & _).
  unfold contains, Date_now. cbn [getTime]. rewrite Ha, Hb.
  split; [|split].
  - apply andb_true_iff. split; [apply js_ge_Num | apply js_lt_Num]; lia.
  - rewrite js_lt_irrefl. apply andb_false_r.
  - intros t. rewrite andb_true_iff, js_ge_Num, js_lt_Num. split.
    + intros H. exists a, b. auto.
    + intros (a' & b' & Ea & Eb & H).
      injection Ea as <-. injection Eb as <-. exact H.
Qed.

(** X6: two well-formed slots overlap exactly when some instant lies in
    both. *)
Theorem overlaps_iff_common_instant (a b : TimeSlot) :
  wellFormed a = true -> wellFormed b = true ->
  (overlaps a b = true
   <-> exists t, contains a (Date_now t) = true
                 /\ contains b (Date_now t) = true).
Proof.
  intros Wa Wb.
  destruct (wellFormed_inv a Wa) as (a1 & a2 & Ha1 & Ha2 & La & _).
  destruct (wellFormed_inv b Wb) as (b1 & b2 & Hb1 & Hb2 & Lb & _).
  unfold overlaps, contains, Date_now. rewrite Ha1, Ha2, Hb1, Hb2.
  cbn [getTime]. rewrite andb_true_iff, js_lt_Num, js_gt_Num. split.
  - intros [H1 H2]. exists (Z.max a1 b1).
    rewrite !andb_true_iff, !js_ge_Num, !js_lt_Num. lia.
  - intros (t & H1 & H2).
    rewrite andb_true_iff, js_ge_Num, js_lt_Num in H1, H2. lia.
Qed.

(** ** Admission and removal *)

Lemma clash_scan_isFree (s : TimeSlot) (l : list TimeSlot) :
  existsb (clashes s) l = existsb (fun slot => overlaps slot s) l.
Proof.
  induction l as [|e l IH]; cbn; [reflexivity|].
  rewrite IH, clashes_overlaps, overlaps_sym. reflexivity.
Qed.

(** X7: [isFree] predicts [addTimeSlot]: a slot is added exactly when its
    end is not before the instant of the call and [isFree] returns [true]
    for it. *)
Theorem isFree_predicts_addTimeSlot (now : Z) (s : TimeSlot) (st : Store) :
  outcome (addTimeSlot now s) st = Normal true
  <-> js_lt (getTime (end_ s)) (Num now) = false
      /\ outcome (isFree s) st = Normal true.
Proof.
  rewrite addTimeSlot_true_iff, clash_scan_isFree.
  unfold outcome, isFree, bind, read_timeSlots, ret. cbn.
  destruct (existsb (fun slot => overlaps slot s) (timeSlots st)); cbn;
    split; intros [H1 H2]; split; auto; discriminate.
Qed.

(** X8: once a well-formed slot has been added, [addTimeSlot] refuses it,
    and every slot with the same endpoints, whatever the instant of the
    later call; the refusal changes nothing. *)
Theorem addTimeSlot_twice_refused (now : Z) (s : TimeSlot) (st : Store) :
  wellFormed s = true ->
  outcome (addTimeSlot now s) st = Normal true ->
  forall now' s', equals s' s = true ->
    addTimeSlot now' s' (store_after (addTimeSlot now s) st)
    = (Normal false, store_after (addTimeSlot now s) st).
Proof.
  intros W T now' s' E. apply addTimeSlot_true_iff in T. destruct T as [S1 S2].
  destruct (addTimeSlot_accept now s st S1 S2) as (before & after & _ & _ & R).
  unfold store_after. rewrite R. cbn [snd].
  apply addTimeSlot_clash. cbn [timeSlots]. apply existsb_exists.
  exists s. split; [apply in_or_app; right; left; reflexivity|].
  rewrite clashes_overlaps, overlaps_sym, <- clashes_overlaps.
  apply equals_clashes; assumption.
Qed.

(** X9: [addTimeSlot] never throws and never drops a stored slot: the
    sequence grows by the new slot when it returns [true] and the store is
    the same when it returns [false]. *)
Theorem addTimeSlot_accounting (now : Z) (s : TimeSlot) (st : Store) :
  let st' := store_after (addTimeSlot now s) st in
  exists r,
    outcome (addTimeSlot now s) st = Normal r
    /\ allocated st' = allocated st
    /\ length (timeSlots st')
       = (length (timeSlots st) + if r then 1 else 0)%nat
    /\ (forall e, In e (timeSlots st')
                  <-> In e (timeSlots st) \/ (r = true /\ e = s))
    /\ (r = false -> st' = st).
Proof.
  unfold store_after, outcome.
  assert (Same : forall m, m = (Normal false, st) ->
            exists r, fst m = Normal r
              /\ allocated (snd m) = allocated st
              /\ length (timeSlots (snd m))
                 = (length (timeSlots st) + if r then 1 else 0)%nat
              /\ (forall e, In e (timeSlots (snd m))
                            <-> In e (timeSlots st) \/ (r = true /\ e = s))
              /\ (r = false -> snd m = st)).
  { intros m ->. exists false. cbn. repeat split; auto; try lia.
    intros [H | [H _]]; [exact H | discriminate]. }
  destruct (js_lt (getTime (end_ s)) (Num now)) eqn:S1;
    [apply Same, addTimeSlot_stale, S1|].
  destruct (existsb (clashes s) (timeSlots st)) eqn:S2;
    [apply Same, addTimeSlot_clash, S2|].
  destruct (addTimeSlot_accept now s st S1 S2) as (before & after & E & _ & R).
  rewrite R. exists true. cbn. rewrite E. repeat split; try discriminate.
  - rewrite !length_app. cbn. lia.
  - intros I. apply in_app_or in I. destruct I as [I | [<- | I]]; auto.
    + left. apply in_or_app. auto.
    + left. apply in_or_app. auto.
  - intros [I | [_ ->]].
    + apply in_app_or in I. apply in_or_app. destruct I; [left | right; right]; auto.
    + apply in_or_app. right. left. reflexivity.
Qed.

(** X10: [removeTimeSlot] never throws; it returns [true] exactly when a
    stored slot is the object passed in, the sequence then loses one
    element and gains none; when it returns [false] the store is the
    same. *)
Theorem removeTimeSlot_accounting (s : TimeSlot) (st : Store) :
  let st' := store_after (removeTimeSlot s) st in
  exists r,
    outcome (removeTimeSlot s) st = Normal r
    /\ (r = true <-> exists e, In e (timeSlots st) /\ same_object e s = true)
    /\ allocated st' = allocated st
    /\ (length (timeSlots st') + if r then 1 else 0)%nat
       = length (timeSlots st)
    /\ (forall e, In e (timeSlots st') -> In e (timeSlots st))
    /\ (r = false -> st' = st).
Proof.
  unfold store_after, outcome.
  destruct (removeTimeSlot_by_identity s st)
    as [[F R] | (l1 & y & l2 & E & F & Y & R)]; rewrite R; cbn.
  - exists false. repeat split; auto; try lia; try discriminate.
    intros (e & I & Q). rewrite Forall_forall in F.
    rewrite (F e I) in Q. discriminate.
  - exists true. rewrite E. repeat split; auto; try discriminate.
    + exists y. split; [apply in_or_app; right; left; reflexivity | exact Y].
    + rewrite !length_app. cbn. lia.
    + intros e I. apply in_app_or in I. apply in_or_app.
      destruct I; [left | right; right]; auto.
Qed.

(** X11: when no two stored slots are the same object, a slot that has
    been removed is gone: removing it again returns [false] and changes
    nothing. *)
Theorem removeTimeSlot_twice (s : TimeSlot) (st : Store) :
  distinct_objects (timeSlots st) ->
  outcome (removeTimeSlot s) st = Normal true ->
  removeTimeSlot s (store_after (removeTimeSlot s) st)
  = (Normal false, store_after (removeTimeSlot s) st).
Proof.
  unfold distinct_objects, store_after, outcome. intros D T.
  destruct (removeTimeSlot_by_identity s st)
    as [[F R] | (l1 & y & l2 & E & F & Y & R)]; rewrite R in *; cbn in *;
    [discriminate|].
  assert (F2 : Forall (fun e => same_object e s = false) l2).
  { rewrite E, map_app in D. cbn in D. apply NoDup_remove_2 in D.
    apply Forall_forall. intros e I. unfold same_object in *.
    apply Nat.eqb_eq in Y. apply Nat.eqb_neq. intros Q. apply D.
    apply in_or_app. right. rewrite Y, <- Q. apply in_map, I. }
  destruct (removeTimeSlot_by_identity s (mkStore (l1 ++ l2) (allocated st)))
    as [[_ R'] | (l1' & y' & l2' & E' & _ & Y' & _)]; [exact R'|].
  cbn in E'. exfalso.
  assert (I : In y' (l1 ++ l2))
    by (rewrite E'; apply in_or_app; right; left; reflexivity).
  assert (N : same_object y' s = false).
  { apply in_app_or in I. rewrite Forall_forall in F, F2.
    destruct I; auto. }
  rewrite N in Y'. discriminate.
Qed.

Lemma insertion_index_app (s : TimeSlot) (l1 l2 : list TimeSlot) (i : nat) :
  Forall (fun e => lessThan s e = false) l1 ->
  insertion_index s (l1 ++ l2) i = insertion_index s l2 (i + length l1).
Proof.
  intros F. revert i.
  induction F as [|e l1 N _ IH]; intros i; cbn [app insertion_index length].
  - rewrite Nat.add_0_r. reflexivity.
  - rewrite N, IH. f_equal. lia.
Qed.

Lemma addTimeSlot_at now s before after objects :
  js_lt (getTime (end_ s)) (Num now) = false ->
  existsb (clashes s) (before ++ after) = false ->
  insertion_point s before after ->
  addTimeSlot now s (mkStore (before ++ after) objects)
  = (Normal true, mkStore (before ++ s :: after) objects).
Proof.
  intros S1 S2 [PB PA].
  unfold addTimeSlot, bind, read_timeSlots, write_timeSlots, ret, Date_now.
  cbn [getTime]. rewrite S1. cbn [timeSlots allocated].
  unfold clashes in S2. rewrite S2.
  rewrite (insertion_index_app s before after 0 PB). cbn [Nat.add].
  destruct PA as [-> | (y & rest & -> & L)]; cbn [insertion_index].
  - unfold push. rewrite app_nil_r. reflexivity.
  - rewrite L, splice_insert_one. reflexivity.
Qed.

Lemma StronglySorted_around {A} (R : A -> A -> Prop) (l1 l2 : list A) (x : A) :
  StronglySorted R (l1 ++ x :: l2) ->
  Forall (fun e => R e x) l1 /\ Forall (R x) l2.
Proof.
  induction l1 as [|a l1 IH]; cbn; intros S.
  - inversion S; subst. split; [constructor | assumption].
  - inversion S as [|? ? S' Fa]; subst. destruct (IH S') as [F1 F2].
    split; [|exact F2]. constructor; [|exact F1].
    rewrite Forall_forall in Fa. apply Fa, in_or_app. right. left. reflexivity.
Qed.

Lemma lessThan_asym a b : lessThan a b = true -> lessThan b a = false.
Proof.
  unfold lessThan.
  destruct (getTime (start a)), (getTime (start b)); cbn; try discriminate.
  rewrite Z.ltb_lt, Z.ltb_ge. lia.
Qed.

(** X12: in a schedule that satisfies the invariant, removing a stored slot
    and adding it again, while its end has not passed, puts it back where
    it was: the store is the one before the removal. *)
Theorem removeTimeSlot_then_addTimeSlot (now : Z) (s : TimeSlot) (st : Store) :
  chained (timeSlots st) ->
  In s (timeSlots st) ->
  (forall e, In e (timeSlots st) -> ref e = ref s -> e = s) ->
  js_lt (getTime (end_ s)) (Num now) = false ->
  outcome (removeTimeSlot s) st = Normal true
  /\ addTimeSlot now s (store_after (removeTimeSlot s) st) = (Normal true, st).
Proof.
  intros [WF SS] I Coh S1. unfold outcome, store_after.
  destruct (removeTimeSlot_by_identity s st)
    as [[F R] | (l1 & y & l2 & E & F & Y & R)]; rewrite R; cbn [fst snd].
  - rewrite Forall_forall in F. specialize (F s I).
    unfold same_object in F. rewrite Nat.eqb_refl in F. discriminate.
  - split; [reflexivity|].
    assert (y = s) as ->.
    { apply Coh.
      - rewrite E. apply in_or_app. right. left. reflexivity.
      - apply Nat.eqb_eq. exact Y. }
    rewrite E in WF, SS.
    destruct (StronglySorted_around _ _ _ _ SS) as [B A].
    apply Forall_app in WF. destruct WF as [WF1 WF2].
    inversion WF2 as [|? ? Ws WF2']; subst.
    rewrite Forall_forall in B, A, WF1, WF2'.
    rewrite addTimeSlot_at.
    + destruct st as [l n]. cbn in *. rewrite E. reflexivity.
    + exact S1.
    + apply existsb_false_Forall, Forall_forall. intros e Ie.
      rewrite clashes_overlaps. apply in_app_or in Ie. destruct Ie as [Ie|Ie].
      * rewrite overlaps_sym.
        apply (follows_lessThan e s (WF1 e Ie) Ws (B e Ie)).
      * apply (follows_lessThan s e Ws (WF2' e Ie) (A e Ie)).
    + split.
      * apply Forall_forall. intros e Ie. apply lessThan_asym.
        apply (follows_lessThan e s (WF1 e Ie) Ws (B e Ie)).
      * destruct l2 as [|z l2]; [left; reflexivity|].
        right. exists z, l2. split; [reflexivity|].
        apply (follows_lessThan s z Ws (WF2' z (or_introl eq_refl))
                 (A z (or_introl eq_refl))).
Qed.

(** ** isBusy and getStatus *)

Lemma isBusy_outcome t st :
  outcome (isBusy t) st
  = Normal (existsb (fun e => contains e (Date_now t)) (timeSlots st)).
Proof. reflexivity. Qed.

(** X13: after a slot has been added, the schedule is busy at an instant
    exactly when it was busy there before or the new slot contains the
    instant. *)
Theorem isBusy_after_addTimeSlot (now : Z) (s : TimeSlot) (st : Store) (t : Z) (b : bool) :
  outcome (addTimeSlot now s) st = Normal true ->
  outcome (isBusy t) st = Normal b ->
  outcome (isBusy t) (store_after (addTimeSlot now s) st)
  = Normal (b || contains s (Date_now t)).
Proof.
  intros T B. apply addTimeSlot_true_iff in T. destruct T as [S1 S2].
  destruct (addTimeSlot_accept now s st S1 S2) as (before & after & E & _ & R).
  unfold store_after. rewrite R. cbn [snd].
  rewrite isBusy_outcome in *. injection B as <-. cbn [timeSlots].
  rewrite E, !existsb_app. cbn [existsb].
  destruct (existsb _ before), (contains s (Date_now t)), (existsb _ after);
    reflexivity.
Qed.

(** X14: [getStatus] is BUSY exactly when a stored slot contains the
    current instant, IDLE otherwise; it never throws and leaves the store
    as it is. *)
Theorem getStatus_busy_iff (now : Z) (st : Store) :
  (getStatus now st = (Normal BUSY, st)
   <-> exists e, In e (timeSlots st) /\ contains e (Date_now now) = true)
  /\ (getStatus now st = (Normal IDLE, st)
      <-> forall e, In e (timeSlots st) -> contains e (Date_now now) = false)
  /\ (getStatus now st = (Normal BUSY, st)
      \/ getStatus now st = (Normal IDLE, st)).
Proof.
  unfold getStatus, isBusy, bind, read_timeSlots, ret.
  destruct (existsb (fun e => contains e (Date_now now)) (timeSlots st)) eqn:X.
  - pose proof X as X'. apply existsb_exists in X'. repeat split; auto.
    + discriminate.
    + intros H. destruct X' as (e & I & C). rewrite (H e I) in C. discriminate.
  - pose proof X as X'. apply existsb_false_Forall in X'.
    rewrite Forall_forall in X'. repeat split; auto.
    + discriminate.
    + intros (e & I & C). rewrite (X' e I) in C. discriminate.
Qed.

Lemma contains_both_overlaps a b t :
  contains a (Date_now t) = true -> contains b (Date_now t) = true ->
  overlaps a b = true.
Proof.
  unfold contains, overlaps, Date_now. cbn [getTime].
  destruct (getTime (start a)) as [|a1]; [discriminate|].
  destruct (getTime (end_ a)) as [|a2];
    [intros H; apply andb_true_iff in H; destruct H; discriminate|].
  destruct (getTime (start b)) as [|b1]; [discriminate|].
  destruct (getTime (end_ b)) as [|b2];
    [intros _ H; apply andb_true_iff in H; destruct H; discriminate|].
  rewrite !andb_true_iff, !js_ge_Num, !js_lt_Num, js_gt_Num. lia.
Qed.

(** X15: in a schedule that satisfies the invariant at most one stored slot
    is in progress at any instant. *)
Theorem one_slot_in_progress (l : list TimeSlot) (t : Z) :
  chained l ->
  forall i j a b,
    nth_error l i = Some a -> nth_error l j = Some b ->
    contains a (Date_now t) = true -> contains b (Date_now t) = true ->
    i = j.
Proof.
  intros C i j a b Hi Hj Ca Cb.
  destruct (Nat.eq_dec i j) as [Q|N]; [exact Q|].
  destruct (chained_strict_disjoint l C) as [_ D].
  pose proof (D i j a b N Hi Hj) as X.
  rewrite (contains_both_overlaps a b t Ca Cb) in X. discriminate.
Qed.

(** ** nextBusyTimeSlot under a running clock *)

Lemma nextBusy_scan_clock (clock : nat -> Z) (l : list TimeSlot) (k0 : nat) :
  match nextBusy_scan clock k0 l with
  | Some s =>
      exists k, nth_error l k = Some s
                /\ Date_gt (start s) (Date_now (clock (k0 + k)%nat)) = true
                /\ (forall j e, (j < k)%nat -> nth_error l j = Some e ->
                      Date_gt (start e) (Date_now (clock (k0 + j)%nat)) = false)
  | None =>
      forall k e, nth_error l k = Some e ->
                  Date_gt (start e) (Date_now (clock (k0 + k)%nat)) = false
  end.
Proof.
  revert k0. induction l as [|x l IH]; intros k0; cbn [nextBusy_scan].
  - intros k e H. destruct k; discriminate.
  - fold (Date_gt (start x) (Date_now (clock k0))).
    destruct (Date_gt (start x) (Date_now (clock k0))) eqn:G.
    + exists 0%nat. rewrite Nat.add_0_r. repeat split; auto.
      intros j e L. lia.
    + specialize (IH (S k0)).
      destruct (nextBusy_scan clock (S k0) l) as [s|].
      * destruct IH as (k & Hk & Gk & B). exists (S k).
        replace (k0 + S k)%nat with (S k0 + k)%nat by lia.
        repeat split; auto. intros [|j] e L Hj; cbn in Hj.
        -- injection Hj as <-. rewrite Nat.add_0_r. exact G.
        -- replace (k0 + S j)%nat with (S k0 + j)%nat by lia.
           apply B; [lia | exact Hj].
      * intros [|k] e Hk; cbn in Hk.
        -- injection Hk as <-. rewrite Nat.add_0_r. exact G.
        -- replace (k0 + S k)%nat with (S k0 + k)%nat by lia.
           apply IH. exact Hk.
Qed.





(** X16: [nextBusyTimeSlot] reads the clock once per element.  Whatever the
    clock does, the call changes nothing and returns the first stored slot
    that starts after the reading taken when the loop reaches it, or [null]
    when no slot does; when the clock never runs backwards, a returned slot
    starts after the instant at which the call began. *)
Theorem nextBusyTimeSlot_any_clock (clock : nat -> Z) (st : Store) :
  exists r,
    nextBusyTimeSlot clock st = (Normal r, st)
    /\ match r with
       | Some s =>
           exists k,
             nth_error (timeSlots st) k = Some s
             /\ Date_gt (start s) (Date_now (clock k)) = true
             /\ (forall j e, (j < k)%nat -> nth_error (timeSlots st) j = Some e ->
                   Date_gt (start e) (Date_now (clock j)) = false)
             /\ ((forall j, clock 0%nat <= clock j) ->
                 Date_gt (start s) (Date_now (clock 0%nat)) = true)
       | None =>
           forall k e, nth_error (timeSlots st) k = Some e ->
                       Date_gt (start e) (Date_now (clock k)) = false
       end.
Proof.
  exists (nextBusy_scan clock 0 (timeSlots st)). split; [reflexivity|].
  pose proof (nextBusy_scan_clock clock (timeSlots st) 0) as H.
  destruct (nextBusy_scan clock 0 (timeSlots st)) as [s|]; cbn [Nat.add] in H.
  - destruct H as (k & Hk & G & B). exists k. repeat split; auto.
    intros Mono. unfold Date_gt, Date_now in *. cbn [getTime] in *.
    destruct (getTime (start s)) as [|a]; [discriminate|].
    apply js_gt_Num in G. apply js_gt_Num. specialize (Mono k). lia.
  - exact H.
Qed.

(** ** The slot returned by nextFreeTimeSlot *)

Lemma nextFreeTimeSlot_all_past now st :
  Forall (fun e => Date_gt (start e) (Date_now now) = false) (timeSlots st) ->
  outcome (nextFreeTimeSlot now) st = Normal None.
Proof.
  intros F. unfold outcome, nextFreeTimeSlot, bind, read_timeSlots.
  rewrite <- (app_nil_r (timeSlots st)) at 2.
  rewrite (nextFree_scan_skip _ _ _ _ _ F). reflexivity.
Qed.

Lemma gap_start_valid now l i si :
  Forall (fun e => wellFormed e = true) l ->
  nth_error l i = Some si ->
  exists a, getTime (gap_start now l i) = Num a
            /\ ((i = 0%nat /\ a = now)
                \/ exists p prev, i = S p /\ nth_error l p = Some prev
                                  /\ getTime (end_ prev) = Num a).
Proof.
  intros WF Hi. destruct i as [|p]; cbn [gap_start].
  - exists now. split; [reflexivity | left; auto].
  - destruct (nth_error l p) as [prev|] eqn:P.
    + rewrite Forall_forall in WF.
      destruct (wellFormed_inv prev (WF prev (nth_error_In _ _ P)))
        as (x & y & _ & Hy & _).
      exists y. split; [exact Hy|]. right. exists p, prev. auto.
    + apply nth_error_None in P.
      assert (S p < length l)%nat by (apply nth_error_Some; rewrite Hi; discriminate).
      lia.
Qed.

Lemma nextFreeTimeSlot_cases now st :
  (outcome (nextFreeTimeSlot now) st = Normal None)
  \/ exists i si,
       nth_error (timeSlots st) i = Some si
       /\ Date_gt (start si) (Date_now now) = true
       /\ nextFreeTimeSlot now st
          = (s <- new_TimeSlot (gap_start now (timeSlots st) i) (start si) ;;
             ret (Some s)) st.
Proof.
  destruct (nextBusy_scan_spec now (timeSlots st) 0)
    as [[_ F] | (pre & s & post & E & F & Gs & _)].
  - left. apply nextFreeTimeSlot_all_past, F.
  - right.
    destruct (first_future_slot now (timeSlots st)) as (i & si & Hi & G & B).
    + exists s. split; [rewrite E; apply in_or_app; right; left; reflexivity|].
      exact Gs.
    + exists i, si. split; [exact Hi|]. split; [exact G|].
      apply nextFreeTimeSlot_at; assumption.
Qed.

(** X17: in a schedule of well-formed slots [nextFreeTimeSlot] fails in two
    ways only: with the ordering error or with the duration error of the
    constructor. *)
Theorem nextFreeTimeSlot_errors (now : Z) (st : Store) (e : Error) :
  Forall (fun s => wellFormed s = true) (timeSlots st) ->
  outcome (nextFreeTimeSlot now) st = Thrown e ->
  OrderingError e \/ DurationError e.
Proof.
  intros WF H.
  destruct (nextFreeTimeSlot_cases now st) as [N | (i & si & Hi & G & R)].
  - rewrite N in H. discriminate.
  - destruct (gap_start_valid now _ i si WF Hi) as (a & Ha & _).
    rewrite Forall_forall in WF.
    destruct (wellFormed_inv si (WF si (nth_error_In _ _ Hi)))
      as (b & b' & Hb & _).
    unfold outcome in H. rewrite R, construct_some_run in H.
    destruct (Z_lt_ge_dec a b) as [L|L].
    + destruct (Z_le_gt_dec (b - a) day_ms) as [D|D].
      * rewrite (new_TimeSlot_valid _ _ st a b Ha Hb L D) in H. discriminate.
      * rewrite (new_TimeSlot_too_long _ _ st a b Ha Hb D) in H.
        injection H as <-. right. reflexivity.
    + rewrite (new_TimeSlot_unordered _ _ st a b Ha Hb L) in H.
      injection H as <-. left. reflexivity.
Qed.

Lemma gap_overlaps_none now l i si g objects :
  chained l ->
  nth_error l i = Some si ->
  g = mkTimeSlot objects (gap_start now l i) (start si) ->
  wellFormed g = true ->
  Forall (fun e => overlaps e g = false) l.
Proof.
  intros [WF SS] Hi -> Wg. apply Forall_forall. intros e I.
  destruct (In_nth_error _ _ I) as [j Hj].
  destruct (gap_start_valid now l i si WF Hi) as (a & Ha & Prev).
  rewrite Forall_forall in WF.
  destruct (wellFormed_inv si (WF si (nth_error_In _ _ Hi)))
    as (b & b' & Hb & Hb' & Lb & _).
  destruct (wellFormed_inv e (WF e I)) as (x & y & Hx & Hy & Lx & _).
  unfold overlaps. cbn [start end_]. rewrite Ha, Hb, Hx, Hy.
  apply andb_false_iff. rewrite js_lt_Num_false, js_gt_Num_false.
  destruct (Nat.lt_trichotomy j i) as [L | [-> | L]].
  - right. destruct Prev as [[-> _] | (p & prev & -> & Hp & Hpa)]; [lia|].
    destruct (Nat.eq_dec j p) as [-> | N].
    + rewrite Hp in Hj. injection Hj as ->. rewrite Hy in Hpa.
      injection Hpa as ->. lia.
    + assert (F : follows e prev)
        by (apply (StronglySorted_nth _ _ SS j p); auto; lia).
      destruct (wellFormed_inv prev (WF prev (nth_error_In _ _ Hp)))
        as (p1 & p2 & Hp1 & Hp2 & Lp & _).
      unfold follows in F. rewrite Hy, Hp1 in F. apply js_le_Num in F.
      rewrite Hp2 in Hpa. injection Hpa as ->. lia.
  - left. rewrite Hi in Hj. injection Hj as ->. rewrite Hb in Hx.
    injection Hx as ->. lia.
  - left. assert (F : follows si e)
      by (apply (StronglySorted_nth _ _ SS i j); auto).
    unfold follows in F. rewrite Hb', Hx in F. apply js_le_Num in F. lia.
Qed.

(** X18: in a schedule that satisfies the invariant, the slot that
    [nextFreeTimeSlot] returns is well-formed, overlaps no stored slot
    ([isFree] returns [true] for it) and [addTimeSlot] accepts it at the
    same instant. *)
Theorem nextFreeTimeSlot_bookable (now : Z) (st : Store) (g : TimeSlot) :
  chained (timeSlots st) ->
  outcome (nextFreeTimeSlot now) st = Normal (Some g) ->
  wellFormed g = true
  /\ outcome (isFree g) st = Normal true
  /\ outcome (addTimeSlot now g) (store_after (nextFreeTimeSlot now) st)
     = Normal true.
Proof.
  intros C H.
  destruct (nextFreeTimeSlot_cases now st) as [N | (i & si & Hi & G & R)];
    [rewrite N in H; discriminate|].
  unfold outcome in H. rewrite R, construct_some_run in H.
  pose proof (new_TimeSlot_returns (gap_start now (timeSlots st) i) (start si) st)
    as Ret.
  unfold outcome in Ret.
  destruct (new_TimeSlot (gap_start now (timeSlots st) i) (start si) st)
    as [[g'|err] st'] eqn:New; cbn in H; [|discriminate].
  injection H as ->. destruct (Ret g eq_refl) as [Eg Wg].
  pose proof (gap_overlaps_none now _ i si g _ C Hi Eg Wg) as Free.
  assert (X : existsb (fun slot => overlaps slot g) (timeSlots st) = false)
    by (apply existsb_false_Forall, Free).
  split; [exact Wg|]. split.
  - unfold outcome, isFree, bind, read_timeSlots, ret. cbn. rewrite X.
    reflexivity.
  - apply addTimeSlot_true_iff.
    rewrite nextFreeTimeSlot_keeps_timeSlots, clash_scan_isFree. split; [|exact X].
    rewrite Eg. cbn [end_]. unfold Date_gt, Date_now in G. cbn [getTime] in G.
    destruct (getTime (start si)) as [|b]; [reflexivity|].
    apply js_gt_Num in G. apply js_lt_Num_false. lia.
Qed.

(** ** The bot *)

(** X19: the bot answers [!ping] with [Pong!] and [!pong] with [Ping!], in
    the channel of the message, with one call; no other message is
    answered, and an answer of the bot, received as a message, is not
    answered. *)
Theorem bot_reply (msg : Message) :
  (content msg = "!ping" ->
   on_messageCreate msg = [createMessage (channel_id msg) "Pong!"])
  /\ (content msg = "!pong" ->
      on_messageCreate msg = [createMessage (channel_id msg) "Ping!"])
  /\ (content msg <> "!ping" -> content msg <> "!pong" ->
      on_messageCreate msg = [])
  /\ (forall ch txt,
        In (createMessage ch txt) (on_messageCreate msg) ->
        ch = channel_id msg
        /\ forall c, on_messageCreate (mkMessage txt c) = []).
Proof.
  unfold on_messageCreate.
  destruct (String.eqb_spec (content msg) "!ping") as [P|P].
  - split; [reflexivity|]. split; [rewrite P; discriminate|].
    split; [intros N; contradiction|].
    intros ch txt [Q | []]. injection Q as <- <-.
    split; reflexivity.
  - destruct (String.eqb_spec (content msg) "!pong") as [Q|Q].
    + split; [intros C; contradiction|]. split; [reflexivity|].
      split; [intros _ N; contradiction|].
      intros ch txt [Q' | []]. injection Q' as <- <-.
      split; reflexivity.
    + split; [intros C; contradiction|]. split; [intros C; contradiction|].
      split; [reflexivity|]. intros ch txt [].
Qed.

(** ** Concrete runs of the further properties *)

Lemma equals_congruence_witness :
  let copy := mkTimeSlot 5 (mkDate (Num 3600000)) (mkDate (Num 7200000)) in
  equals slot_late copy = true
  /\ outcome (addTimeSlot 0 slot_late) (mkStore [slot_early] 6)
     = outcome (addTimeSlot 0 copy) (mkStore [slot_early] 6)
  /\ overlaps slot_late slot_next = overlaps copy slot_next.
Proof.
  intros copy. split; [reflexivity|].
  destruct (equals_congruence slot_late copy eq_refl) as (P & _ & Q).
  split; [apply Q | apply (P slot_next)].
Defined.

Lemma start_comparisons_witness :
  lessThan slot_early slot_late = negb (greaterThanOrEqual slot_early slot_late)
  /\ greaterThan slot_early slot_late = negb (lessThanOrEqual slot_early slot_late).
Proof.
  destruct (start_comparisons slot_early slot_late 600000 3600000 eq_refl eq_refl)
    as (H1 & H2 & _).
  split; [exact H1 | exact H2].
Defined.

Lemma invalid_start_compares_false_witness :
  let broken := mkTimeSlot 6 (mkDate NaN) (mkDate (Num 5000)) in
  getTime (start broken) = NaN
  /\ lessThan broken slot_late = false
  /\ lessThan slot_late broken = false.
Proof.
  intros broken. split; [reflexivity|].
  destruct (invalid_start_compares_false broken eq_refl slot_late (Date_now 0))
    as (H1 & H2 & _).
  split; [exact H1 | exact H2].
Defined.

Lemma contains_half_open_witness :
  wellFormed slot_late = true
  /\ contains slot_late (start slot_late) = true
  /\ contains slot_late (end_ slot_late) = false.
Proof.
  split; [reflexivity|].
  destruct (contains_half_open slot_late eq_refl) as (H1 & H2 & _).
  split; [exact H1 | exact H2].
Defined.

Lemma overlaps_iff_common_instant_witness :
  let other := mkTimeSlot 4 (mkDate (Num 5400000)) (mkDate (Num 9000000)) in
  wellFormed slot_late = true /\ wellFormed other = true
  /\ exists t, contains slot_late (Date_now t) = true
               /\ contains other (Date_now t) = true.
Proof.
  intros other. split; [reflexivity|]. split; [reflexivity|].
  apply (overlaps_iff_common_instant slot_late other eq_refl eq_refl).
  reflexivity.
Defined.

Lemma addTimeSlot_twice_refused_witness :
  wellFormed slot_late = true
  /\ outcome (addTimeSlot 0 slot_late) (new_Schedule 1) = Normal true
  /\ addTimeSlot 5 slot_late (store_after (addTimeSlot 0 slot_late) (new_Schedule 1))
     = (Normal false, store_after (addTimeSlot 0 slot_late) (new_Schedule 1)).
Proof.
  split; [reflexivity|]. split; [reflexivity|].
  apply (addTimeSlot_twice_refused 0 slot_late (new_Schedule 1) eq_refl eq_refl).
  reflexivity.
Defined.

Lemma removeTimeSlot_twice_witness :
  distinct_objects [slot_early; slot_late]
  /\ outcome (removeTimeSlot slot_late) (mkStore [slot_early; slot_late] 2)
     = Normal true
  /\ removeTimeSlot slot_late
       (store_after (removeTimeSlot slot_late) (mkStore [slot_early; slot_late] 2))
     = (Normal false,
        store_after (removeTimeSlot slot_late) (mkStore [slot_early; slot_late] 2)).
Proof.
  assert (D : distinct_objects [slot_early; slot_late]).
  { unfold distinct_objects. cbn. constructor.
    - intros [Q | []]. discriminate Q.
    - constructor; [intros [] | constructor]. }
  split; [exact D|]. split; [reflexivity|].
  apply (removeTimeSlot_twice slot_late (mkStore [slot_early; slot_late] 2) D).
  reflexivity.
Defined.

Lemma removeTimeSlot_then_addTimeSlot_witness :
  chained [slot_early; slot_late]
  /\ addTimeSlot 0 slot_early
       (store_after (removeTimeSlot slot_early) (mkStore [slot_early; slot_late] 2))
     = (Normal true, mkStore [slot_early; slot_late] 2).
Proof.
  assert (C : chained [slot_early; slot_late]).
  { split; repeat constructor. }
  split; [exact C|].
  apply (removeTimeSlot_then_addTimeSlot 0 slot_early
           (mkStore [slot_early; slot_late] 2) C).
  - left. reflexivity.
  - intros e [<- | [<- | []]] Q; [reflexivity | discriminate Q].
  - reflexivity.
Defined.

Lemma isBusy_after_addTimeSlot_witness :
  outcome (isBusy 4000000) (new_Schedule 1) = Normal false
  /\ outcome (isBusy 4000000)
             (store_after (addTimeSlot 0 slot_late) (new_Schedule 1))
     = Normal true.
Proof.
  split; [reflexivity|].
  apply (isBusy_after_addTimeSlot 0 slot_late (new_Schedule 1) 4000000 false
           eq_refl eq_refl).
Defined.

Lemma one_slot_in_progress_witness :
  chained [slot_early; slot_late]
  /\ forall j b,
       nth_error [slot_early; slot_late] j = Some b ->
       contains b (Date_now 700000) = true -> j = 0%nat.
Proof.
  assert (C : chained [slot_early; slot_late]).
  { split; repeat constructor. }
  split; [exact C|]. intros j b Hj Cb. symmetry.
  apply (one_slot_in_progress [slot_early; slot_late] 700000 C
           0%nat j slot_early b eq_refl Hj eq_refl Cb).
Defined.

Lemma nextFreeTimeSlot_errors_witness :
  outcome (nextFreeTimeSlot 5400000) (mkStore [slot_late; slot_next] 4)
  = Thrown (mkError "The start time must be before the end time.")
  /\ (OrderingError (mkError "The start time must be before the end time.")
      \/ DurationError (mkError "The start time must be before the end time.")).
Proof.
  split; [reflexivity|].
  apply (nextFreeTimeSlot_errors 5400000 (mkStore [slot_late; slot_next] 4)).
  - repeat constructor.
  - reflexivity.
Defined.

Lemma nextFreeTimeSlot_bookable_witness :
  let gap := mkTimeSlot 4 (Date_now 0) (start slot_late) in
  chained [slot_late; slot_next]
  /\ outcome (nextFreeTimeSlot 0) (mkStore [slot_late; slot_next] 4)
     = Normal (Some gap)
  /\ outcome (isFree gap) (mkStore [slot_late; slot_next] 4) = Normal true
  /\ outcome (addTimeSlot 0 gap)
             (store_after (nextFreeTimeSlot 0) (mkStore [slot_late; slot_next] 4))
     = Normal true.
Proof.
  intros gap.
  assert (C : chained [slot_late; slot_next]).
  { split; repeat constructor. }
  split; [exact C|]. split; [reflexivity|].
  destruct (nextFreeTimeSlot_bookable 0 (mkStore [slot_late; slot_next] 4) gap
              C eq_refl) as (_ & F & A).
  split; [exact F | exact A].
Defined.

Lemma bot_reply_witness :
  on_messageCreate (mkMessage "!ping" "general")
  = [createMessage "general" "Pong!"]
  /\ on_messageCreate (mkMessage "!pong" "general")
     = [createMessage "general" "Ping!"]
  /\ on_messageCreate (mkMessage "hello" "general") = []
  /\ on_messageCreate (mkMessage "Pong!" "general") = [].
Proof.
  destruct (bot_reply (mkMessage "!ping" "general")) as (H1 & _ & _ & H4).
  destruct (bot_reply (mkMessage "!pong" "general")) as (_ & H2 & _ & _).
  destruct (bot_reply (mkMessage "hello" "general")) as (_ & _ & H3 & _).
  split; [apply H1; reflexivity|]. split; [apply H2; reflexivity|].
  split; [apply H3; discriminate|].
  destruct (H4 "general" "Pong!") as [_ N].
  - rewrite H1 by reflexivity. left. reflexivity.
  - apply N.
Defined.

(** ** The empty schedule *)

(** X20: on the schedule a new machine starts with, every slot is free,
    the machine is idle, there is no next busy and no next free slot,
    nothing can be removed, and [addTimeSlot] accepts every slot whose end
    is not before the instant of the call, which becomes the only
    element. *)
Theorem empty_schedule (objects : nat) (now : Z) (s : TimeSlot) (clock : nat -> Z) :
  let st := new_Schedule objects in
  isFree s st = (Normal true, st)
  /\ isBusy now st = (Normal false, st)
  /\ getStatus now st = (Normal IDLE, st)
  /\ nextBusyTimeSlot clock st = (Normal None, st)
  /\ nextFreeTimeSlot now st = (Normal None, st)
  /\ removeTimeSlot s st = (Normal false, st)
  /\ addTimeSlot now s st
     = if js_lt (getTime (end_ s)) (Num now) then (Normal false, st)
       else (Normal true, mkStore [s] objects).
Proof.
  cbn zeta. repeat split.
  unfold addTimeSlot, Date_now. cbn [getTime].
  destruct (js_lt (getTime (end_ s)) (Num now)); reflexivity.
Qed.


(** ** Concrete runs: removal by a copy, and a running clock *)

Lemma addTimeSlot_then_remove_equal_copy_witness :
  let copy := mkTimeSlot 7 (mkDate (Num 600000)) (mkDate (Num 3000000)) in
  let st := mkStore [slot_late] 2 in
  equals copy slot_early = true
  /\ outcome (addTimeSlot 0 slot_early) st = Normal true
  /\ removeTimeSlot copy (store_after (addTimeSlot 0 slot_early) st)
     = (Normal false, mkStore [slot_early; slot_late] 2)
  /\ timeSlots (store_after (addTimeSlot 0 slot_early) st) <> timeSlots st.
Proof.
  intros copy st. split; [reflexivity|]. split; [reflexivity|].
  destruct (addTimeSlot_then_remove_equal_copy 0 slot_early copy st
              eq_refl eq_refl eq_refl) as (R & _ & N).
  - discriminate.
  - intros e [<- | []]. discriminate.
  - split; [exact R | exact N].
Defined.

